(** * conveyal/r5 data-preparation scripts: a shallow embedding

    Three scripts are embedded:
    - [census/downloadData.py]  (module [DownloadData]),
    - [census/randomizeCsv.py]  (module [RandomizeCsv]),
    - [src/main/resources/speeds/convert.py] (module [Convert]).

    Python strings are modelled as byte strings ([string]); [upper] and
    [lower] act on the ASCII letters and leave every other byte unchanged.
    A Python [dict] is modelled as an association list with unique keys kept
    in insertion order ([dict_set] updates in place or appends).
    Exceptions are values of [exn]; a computation that can raise returns a
    [result]. *)

From Stdlib Require Import Ascii.
From stdpp Require Import gmap strings list fin_maps pretty.


(** ** Python string operations *)

Definition upper_ascii (c : ascii) : ascii :=
  let n := N_of_ascii c in
  if (97 <=? n)%N && (n <=? 122)%N then ascii_of_N (n - 32) else c.

Definition lower_ascii (c : ascii) : ascii :=
  let n := N_of_ascii c in
  if (65 <=? n)%N && (n <=? 90)%N then ascii_of_N (n + 32) else c.

Fixpoint str_map (f : ascii → ascii) (s : string) : string :=
  match s with
  | EmptyString => EmptyString
  | String c s' => String (f c) (str_map f s')
  end.

(** [s.upper()] and [s.lower()] *)
Definition upper : string → string := str_map upper_ascii.
Definition lower : string → string := str_map lower_ascii.

(** [s.startswith(p)] *)
Definition startswith (p s : string) : bool := String.prefix p s.

(** [sep.join(l)] *)
Definition join_str (sep : string) (l : list string) : string :=
  String.concat sep l.

Definition is_slash (c : ascii) : bool := bool_decide (c = "/"%char).

Definition is_digit (c : ascii) : bool :=
  let n := N_of_ascii c in (48 <=? n)%N && (n <=? 57)%N.

Definition is_upper_letter (c : ascii) : bool :=
  let n := N_of_ascii c in (65 <=? n)%N && (n <=? 90)%N.

Fixpoint str_last (s : string) : option ascii :=
  match s with
  | EmptyString => None
  | String c EmptyString => Some c
  | String _ s' => str_last s'
  end.

(** [s.endswith("/")] *)
Definition ends_with_slash (s : string) : bool :=
  match str_last s with
  | Some c => is_slash c
  | None => false
  end.

Fixpoint has_slash (s : string) : bool :=
  match s with
  | EmptyString => false
  | String c s' => is_slash c || has_slash s'
  end.

Fixpoint all_slashes (s : string) : bool :=
  match s with
  | EmptyString => true
  | String c s' => is_slash c && all_slashes s'
  end.

(** [s.rstrip("/")] *)
Fixpoint rstrip_slash (s : string) : string :=
  match s with
  | EmptyString => EmptyString
  | String c s' =>
      match rstrip_slash s' with
      | EmptyString => if is_slash c then EmptyString else String c EmptyString
      | r => String c r
      end
  end.

(** a string of exactly two characters, both satisfying [p] *)
Definition two_chars (p : ascii → bool) (s : string) : bool :=
  match s with
  | String a (String b EmptyString) => p a && p b
  | _ => false
  end.

(** ** posixpath *)

(** [posixpath.join(a, b)]: an absolute [b] replaces [a]; otherwise [b] is
    appended, with a separator unless [a] is empty or already ends in one. *)
Definition join2 (a b : string) : string :=
  if startswith "/" b then b
  else if bool_decide (a = "") || ends_with_slash a then a +:+ b
  else a +:+ "/" +:+ b.

(** [os.path.join(a, *p)] *)
Definition path_join (a : string) (p : list string) : string :=
  foldl join2 a p.

(** the cut of [posixpath.split]: [(p[:i], p[i:])] for [i = p.rfind('/') + 1] *)
Fixpoint cut_last_slash (p : string) : string * string :=
  match p with
  | EmptyString => (EmptyString, EmptyString)
  | String c p' =>
      let '(h, t) := cut_last_slash p' in
      match h with
      | EmptyString =>
          if is_slash c then (String c EmptyString, t)
          else (EmptyString, String c t)
      | _ => (String c h, t)
      end
  end.

(** [os.path.split(p)] *)
Definition path_split (p : string) : string * string :=
  let '(h, t) := cut_last_slash p in
  (if negb (bool_decide (h = "")) && negb (all_slashes h)
   then rstrip_slash h else h, t).

(** ** Python dictionaries *)

Fixpoint dict_get {V : Type} (k : string) (d : list (string * V)) : option V :=
  match d with
  | [] => None
  | (k', v) :: d' => if decide (k' = k) then Some v else dict_get k d'
  end.

(** [d[k] = v] *)
Fixpoint dict_set {V : Type} (k : string) (v : V) (d : list (string * V))
  : list (string * V) :=
  match d with
  | [] => [(k, v)]
  | (k', v') :: d' =>
      if decide (k' = k) then (k, v) :: d' else (k', v') :: dict_set k v d'
  end.

(** [d.keys()] *)
Definition dict_keys {V : Type} (d : list (string * V)) : list string := d.*1.

(** [k in d] *)
Definition dict_in {V : Type} (k : string) (d : list (string * V)) : bool :=
  bool_decide (is_Some (dict_get k d)).

(** ** Exceptions *)

Inductive exn :=
| IndexError
| KeyError (k : string)
| AttributeError
| TypeError
| FileExistsError (path : string)
| FileNotFoundError (path : string)
| IsADirectoryError (path : string)
| NotADirectoryError (path : string)
| BadZipFile
| TransferError.

Inductive result (A : Type) :=
| Ok (a : A)
| Exc (e : exn).
Arguments Ok {A} a.
Arguments Exc {A} e.

(** ** census/downloadData.py *)

Module DownloadData.

(** *** The world the script runs in

    File contents are either opaque bytes or a well-formed zip container
    with its members (file name, contents) in archive order.  Paths are
    resolved lexically against the working directory (no symbolic links);
    the root directory always exists.  The remote servers are an oracle
    [net]: the outcome of the [k]-th transfer of the run for a URL.  A failed
    transfer may leave a partial file behind. *)

Inductive fdata :=
| Raw (bytes : string)
| ZipData (members : list (string * string)).

Inductive node :=
| Dir
| File (d : fdata).

Inductive outcome :=
| Fetched (d : fdata)
| Failed (partial : option fdata).

Inductive event :=
| Print (s : string)
| Sleep (seconds : nat)
| Urlretrieve (url path : string).

Record world := World {
  fs : gmap (list string) node;
  cwd : list string;
  net : nat → string → outcome;
  net_calls : nat;
  log : list event
}.

Definition set_fs (f : gmap (list string) node) (w : world) : world :=
  World f (cwd w) (net w) (net_calls w) (log w).

Definition add_event (e : event) (w : world) : world :=
  World (fs w) (cwd w) (net w) (net_calls w) (log w ++ [e]).

Definition count_call (w : world) : world :=
  World (fs w) (cwd w) (net w) (S (net_calls w)) (log w).

(** *** Path resolution *)

Definition push_comp (c : string) (stk : list string) : list string :=
  if bool_decide (c = "") || bool_decide (c = ".") then stk
  else if bool_decide (c = "..") then removelast stk
  else stk ++ [c].

(** walks the characters of a path; the state is the component being read
    and the directory reached so far *)
Fixpoint walk (p : string) (st : string * list string) : string * list string :=
  match p with
  | EmptyString => st
  | String c p' =>
      if is_slash c then walk p' (EmptyString, push_comp st.1 st.2)
      else walk p' (st.1 +:+ String c EmptyString, st.2)
  end.

Definition resolve (wd : list string) (p : string) : list string :=
  let st := walk p (EmptyString, if startswith "/" p then [] else wd) in
  push_comp st.1 st.2.

(** *** File-system operations *)

Definition fs_node (f : gmap (list string) node) (p : list string) : option node :=
  match p with
  | [] => Some Dir
  | _ => f !! p
  end.

(** the proper non-empty prefixes of [p]: the directories above it *)
Definition proper_ancestors (p : list string) : list (list string) :=
  (λ k, take k p) <$> seq 1 (length p - 1).

Definition is_file (o : option node) : bool :=
  match o with
  | Some (File _) => true
  | _ => false
  end.

(** [os.makedirs(path)] with [exist_ok=False] *)
Definition fs_makedirs (f : gmap (list string) node) (wd : list string)
    (path : string) : result (gmap (list string) node) :=
  let p := resolve wd path in
  match fs_node f p with
  | Some _ => Exc (FileExistsError path)
  | None =>
      if existsb (λ q, is_file (fs_node f q)) (proper_ancestors p)
      then Exc (NotADirectoryError path)
      else Ok (foldr (λ q g, <[q := Dir]> g) f (p :: proper_ancestors p))
  end.

(** [open(path, 'wb')] followed by writing [d] and closing *)
Definition fs_write (f : gmap (list string) node) (wd : list string)
    (path : string) (d : fdata) : result (gmap (list string) node) :=
  let p := resolve wd path in
  if ends_with_slash path then Exc (IsADirectoryError path)
  else match fs_node f p with
       | Some Dir => Exc (IsADirectoryError path)
       | _ =>
           match fs_node f (removelast p) with
           | None => Exc (FileNotFoundError path)
           | Some (File _) => Exc (NotADirectoryError path)
           | Some Dir => Ok (<[p := File d]> f)
           end
       end.

(** [os.remove(path)] *)
Definition fs_remove (f : gmap (list string) node) (wd : list string)
    (path : string) : result (gmap (list string) node) :=
  let p := resolve wd path in
  match fs_node f p with
  | None => Exc (FileNotFoundError path)
  | Some Dir => Exc (IsADirectoryError path)
  | Some (File _) => Ok (delete p f)
  end.

(** [zipfile.ZipFile(path)]: the members of the container *)
Definition fs_read_zip (f : gmap (list string) node) (wd : list string)
    (path : string) : result (list (string * string)) :=
  match fs_node f (resolve wd path) with
  | None => Exc (FileNotFoundError path)
  | Some Dir => Exc (IsADirectoryError path)
  | Some (File (Raw _)) => Exc BadZipFile
  | Some (File (ZipData ms)) => Ok ms
  end.

(** *** Computations: state that survives a raised exception *)

Definition M (A : Type) : Type := world → result A * world.

#[global] Instance M_ret : MRet M := λ A a w, (Ok a, w).

#[global] Instance M_bind : MBind M := λ A B f m w,
  match m w with
  | (Ok a, w') => f a w'
  | (Exc e, w') => (Exc e, w')
  end.

Definition raise {A : Type} (e : exn) : M A := λ w, (Exc e, w).

(** [try: m] with the outcome handed to the continuation *)
Definition try_ {A : Type} (m : M A) : M (result A) := λ w,
  let '(r, w') := m w in (Ok r, w').

Definition lift_fs (op : gmap (list string) node → list string →
                         result (gmap (list string) node)) : M unit := λ w,
  match op (fs w) (cwd w) with
  | Ok f => (Ok tt, set_fs f w)
  | Exc e => (Exc e, w)
  end.

Definition print (s : string) : M unit := λ w, (Ok tt, add_event (Print s) w).

Definition sleep (n : nat) : M unit := λ w, (Ok tt, add_event (Sleep n) w).

Definition makedirs (path : string) : M unit :=
  lift_fs (λ f wd, fs_makedirs f wd path).

Definition write_file (path : string) (d : fdata) : M unit :=
  lift_fs (λ f wd, fs_write f wd path d).

Definition remove (path : string) : M unit :=
  lift_fs (λ f wd, fs_remove f wd path).

Definition ZipFile (path : string) : M (list (string * string)) := λ w,
  (fs_read_zip (fs w) (cwd w) path, w).

(** [zf.open(member)]: the container is read again; it must still be there *)
Definition zf_open (zipout : string) : M unit :=
  _ ← ZipFile zipout; mret tt.

(** [urllib.request.urlretrieve(url, path)] *)
Definition urlretrieve (url path : string) : M unit := λ w,
  let w1 := count_call (add_event (Urlretrieve url path) w) in
  match net w (net_calls w) url with
  | Fetched d =>
      match fs_write (fs w1) (cwd w1) path d with
      | Ok f => (Ok tt, set_fs f w1)
      | Exc e => (Exc e, w1)
      end
  | Failed None => (Exc TransferError, w1)
  | Failed (Some d) =>
      match fs_write (fs w1) (cwd w1) path d with
      | Ok f => (Exc TransferError, set_fs f w1)
      | Exc e => (Exc e, w1)
      end
  end.

Fixpoint for_each {A : Type} (l : list A) (body : A → M unit) : M unit :=
  match l with
  | [] => mret tt
  | x :: l' => body x;; for_each l' body
  end.

(** *** The script *)

(** map from state abbreviations to FIPS codes (lines 16-72) *)
Definition fipsCodes : list (string * string) :=
  [ ("AK", "02"); ("AL", "01"); ("AR", "05"); ("AS", "60"); ("AZ", "04");
    ("CA", "06"); ("CO", "08"); ("CT", "09"); ("DC", "11"); ("DE", "10");
    ("FL", "12"); ("GA", "13"); ("GU", "66"); ("HI", "15"); ("IA", "19");
    ("ID", "16"); ("IL", "17"); ("IN", "18"); ("KS", "20"); ("KY", "21");
    ("LA", "22"); ("MA", "25"); ("MD", "24"); ("ME", "23"); ("MI", "26");
    ("MN", "27"); ("MO", "29"); ("MS", "28"); ("MT", "30"); ("NC", "37");
    ("ND", "38"); ("NE", "31"); ("NH", "33"); ("NJ", "34"); ("NM", "35");
    ("NV", "32"); ("NY", "36"); ("OH", "39"); ("OK", "40"); ("OR", "41");
    ("PA", "42"); ("PR", "72"); ("RI", "44"); ("SC", "45"); ("SD", "46");
    ("TN", "47"); ("TX", "48"); ("UT", "49"); ("VA", "51"); ("VI", "78");
    ("VT", "50"); ("WA", "53"); ("WI", "55"); ("WV", "54"); ("WY", "56") ].

(** lines 76-81: the work list *)
Definition parse_states (args : list string) : list string := upper <$> args.

Definition is_all (states : list string) : bool :=
  bool_decide (length states = 1) && bool_decide (head states = Some "ALL").

Definition select_states (states : list string) : M (list string) :=
  if is_all states
  then print "Downloading all states";; mret (dict_keys fipsCodes)
  else mret states.

(** lines 84-87 *)
Definition invalidStates (states : list string) : list string :=
  filter (λ state, dict_in state fipsCodes = false) states.

Definition check_inputs (states : list string) : M unit :=
  if bool_decide (0 < length (invalidStates states))
  then print ("Did not recognize states " +:+ join_str " " (invalidStates states))
  else mret tt.

(** lines 90-92 *)
Definition make_directories (outDir : string) : M unit :=
  makedirs (path_join outDir ["tiger"]);;
  makedirs (path_join outDir ["jobs"]);;
  makedirs (path_join outDir ["workforce"]).

(** lines 95-104: [for i in range(50): try ... except ... else: break] *)
Fixpoint retrieve_from (attempts : list nat) (url path : string) : M unit :=
  match attempts with
  | [] => mret tt
  | i :: rest =>
      r ← try_ (print ("download attempt " +:+ pretty i);;
                urlretrieve url path);
      match r with
      | Ok _ => mret tt
      | Exc _ =>
          print ("error retrieving " +:+ url +:+ ", retrying");;
          sleep 5;;
          retrieve_from rest url path
      end
  end.

Definition retrieve (url path : string) : M unit :=
  retrieve_from (seq 0 50) url path.

Definition tiger_url (fips : string) : string :=
  "ftp://ftp2.census.gov/geo/tiger/TIGER2010/TABBLOCK/2010/tl_2010_"
    +:+ fips +:+ "_tabblock10.zip".

Definition lodes_url (kind state : string) (year : nat) : string :=
  "http://lehd.ces.census.gov/data/lodes/LODES7/" +:+ lower state +:+ "/"
    +:+ kind +:+ "/" +:+ lower state +:+ "_" +:+ kind +:+ "_S000_JT00_"
    +:+ pretty year +:+ ".csv.gz".

Definition lodes_file (kind state : string) (year : nat) : string :=
  state +:+ "_" +:+ pretty year +:+ "_" +:+ kind +:+ ".csv.gz".

(** lines 119-124: one member of the archive *)
Definition extract_member (outDir zipout : string) (member : string * string)
    : M unit :=
  let name := (path_split member.1).2 in
  let dest := path_join outDir ["tiger"; name] in
  zf_open zipout;;
  write_file dest (Raw member.2).

(** lines 118-124 *)
Definition extract (outDir zipout : string) : M unit :=
  members ← ZipFile zipout;
  for_each members (extract_member outDir zipout).

(** lines 136-143 *)
Definition select_year (state : string) : M nat :=
  if bool_decide (state = "AK") || bool_decide (state = "SD") then mret 2016
  else if bool_decide (state = "PR") || bool_decide (state = "VI") then
    print (state +:+ " does not have LODES data available");; mret 0
  else mret 2017.

(** lines 131-154 *)
Definition download_lodes (outDir state : string) : M unit :=
  print "Downloading LODES data";;
  year ← select_year state;
  if bool_decide (year ≠ 0) then
    print ("Downloading " +:+ pretty year +:+ " LODES data for " +:+ state);;
    retrieve (lodes_url "rac" state year)
             (path_join outDir ["workforce"; lodes_file "rac" state year]);;
    retrieve (lodes_url "wac" state year)
             (path_join outDir ["jobs"; lodes_file "wac" state year])
  else mret tt.

(** lines 109-129 *)
Definition download_tiger (outDir state : string) : M unit :=
  print ("processing " +:+ state);;
  print "Downloading TIGER";;
  fips ← match dict_get state fipsCodes with
         | Some fips => mret fips
         | None => raise (KeyError state)
         end;
  let zipout := path_join outDir ["tiger"; state +:+ ".zip"] in
  retrieve (tiger_url fips) zipout;;
  extract outDir zipout;;
  remove zipout;;
  print "Done with TIGER".

(** lines 108-156: the body of the loop over the states *)
Definition process_state (outDir state : string) : M unit :=
  download_tiger outDir state;;
  download_lodes outDir state;;
  print ("Done with " +:+ state).

(** lines 75-92 *)
Definition setup (argv : list string) : M (string * list string) :=
  outDir ← match argv !! 1 with
           | Some outDir => mret outDir
           | None => raise IndexError
           end;
  states ← select_states (parse_states (drop 2 argv));
  check_inputs states;;
  make_directories outDir;;
  mret (outDir, states).

Definition main (argv : list string) : M unit :=
  '(outDir, states) ← setup argv;
  for_each states (process_state outDir).

(** the work list that [select_states] hands to the loop *)
Definition work_list (argv : list string) : list string :=
  if is_all (parse_states (drop 2 argv)) then dict_keys fipsCodes
  else parse_states (drop 2 argv).

(** the states whose processing was started, read off the log *)
Definition processing_of (e : event) : option string :=
  match e with
  | Print s =>
      if startswith "processing " s then Some (String.substring 11 (String.length s - 11) s)
      else None
  | _ => None
  end.

Definition processed (l : list event) : list string := omap processing_of l.

Definition is_transfer (e : event) : bool :=
  match e with
  | Urlretrieve _ _ => true
  | _ => false
  end.

Definition transfers (l : list event) : list event := filter (λ e, is_transfer e = true) l.

Definition initial (n : nat → string → outcome) : world :=
  World ∅ [] n 0 [].

(** servers that fail the first [n] transfers of a run and serve [d] from
    then on *)
Definition flaky (n : nat) (d : fdata) : nat → string → outcome :=
  λ k _, if bool_decide (k < n) then Failed None else Fetched d.

Definition shapefiles : fdata :=
  ZipData [ ("tl_2010_tabblock10.shp", "shapes");
            ("tl_2010_tabblock10.dbf", "attributes") ].

(** the events of [n] failed attempts numbered from [i], and of a
    successful attempt numbered [i] *)
Fixpoint failed_attempts (url path : string) (i n : nat) : list event :=
  match n with
  | O => []
  | S n' =>
      [ Print ("download attempt " +:+ pretty i); Urlretrieve url path;
        Print ("error retrieving " +:+ url +:+ ", retrying"); Sleep 5 ]
      ++ failed_attempts url path (S i) n'
  end.

Definition last_attempt (url path : string) (i : nat) : list event :=
  [ Print ("download attempt " +:+ pretty i); Urlretrieve url path ].

(** [path] can be opened for writing *)
Definition writable (f : gmap (list string) node) (wd : list string)
    (path : string) : Prop :=
  ends_with_slash path = false ∧
  fs_node f (resolve wd path) ≠ Some Dir ∧
  fs_node f (removelast (resolve wd path)) = Some Dir.


(** directories are never removed or replaced *)
Definition keeps_dirs (f f' : gmap (list string) node) : Prop :=
  ∀ p, fs_node f p = Some Dir → fs_node f' p = Some Dir.

(** what every step of the script preserves *)
Definition steps (w w' : world) : Prop :=
  cwd w' = cwd w ∧ net w' = net w ∧ net_calls w ≤ net_calls w' ∧
  keeps_dirs (fs w) (fs w').

(** a step that starts the processing of no state *)
Definition quiet_event (e : event) : Prop := processing_of e = None.

Definition quiet (w w' : world) : Prop :=
  ∃ evs, log w' = log w ++ evs ∧ Forall quiet_event evs.

(** a step that transfers nothing *)
Definition offline (w w' : world) : Prop :=
  cwd w' = cwd w ∧ net w' = net w ∧ net_calls w' = net_calls w ∧
  ∃ evs, log w' = log w ++ evs ∧ transfers evs = [].

(** [R] relates the world before and after [m], whatever [m] returns *)
Definition inv {A : Type} (R : relation world) (m : M A) : Prop :=
  ∀ w, R w (m w).2.

(** at most [n] transfers are made by [m] *)
Definition within (n : nat) {A : Type} (m : M A) : Prop :=
  ∀ w, ∃ evs, log (m w).2 = log w ++ evs ∧ length (transfers evs) ≤ n.

(** a file name proper: not empty, no separator, neither [.] nor [..] *)
Definition plain_name (name : string) : Prop :=
  name ≠ "" ∧ has_slash name = false ∧ name ≠ "." ∧ name ≠ "..".

(** what extraction leaves under [name]: the contents of the last member of
    the archive with that base name *)
Definition extracted (ms : list (string * string)) (name : string)
    : option string :=
  snd <$> last (filter (λ m, (path_split m.1).2 = name) ms).

(** a world in which the directories have just been made under out, with
    the servers [n] *)
Definition prepared (n : nat → string → outcome) : world :=
  World (<[["out"; "workforce"] := Dir]>
           (<[["out"; "jobs"] := Dir]>
              (<[["out"; "tiger"] := Dir]> (<[["out"] := Dir]> ∅))))
        [] n 0 [].

(** a world in which the archive of CA, holding [ms], has just been
    retrieved into out/tiger *)
Definition unpacking (ms : list (string * string)) : world :=
  World (<[["out"; "tiger"; "CA.zip"] := File (ZipData ms)]>
           (<[["out"; "tiger"] := Dir]> (<[["out"] := Dir]> ∅)))
        [] (flaky 0 shapefiles) 0 [].

End DownloadData.

(** ** census/randomizeCsv.py *)

Module RandomizeCsv.



(** lines 9-13; the state is the global [ct]; returns the value and the new
    counter *)
Definition nextVal (ct : Z) : Z * Z := ((ct + 1)%Z, (ct + 1)%Z).






(** [n] successive calls of [nextVal], with the values returned *)
Fixpoint calls (n : nat) (ct : Z) : list Z * Z :=
  match n with
  | O => ([], ct)
  | S n' => let '(v, ct1) := nextVal ct in
            let '(vs, ct2) := calls n' ct1 in (v :: vs, ct2)
  end.

(** the integers [ct + 1, ..., ct + n] *)
Definition count_from (ct : Z) (n : nat) : list Z :=
  (λ i, (ct + Z.of_nat (S i))%Z) <$> seq 0 n.


End RandomizeCsv.

(** ** src/main/resources/speeds/convert.py *)

Module Convert.

Inductive regex :=
| Void
| Eps
| Cls (p : ascii → bool)
| Cat (r1 r2 : regex)
| Alt (r1 r2 : regex)
| Star (r : regex).

Definition Plus (r : regex) : regex := Cat r (Star r).
Definition Opt (r : regex) : regex := Alt r Eps.
Definition Chr (c : ascii) : regex := Cls (λ x, bool_decide (x = c)).

Fixpoint Lit (s : string) : regex :=
  match s with
  | EmptyString => Eps
  | String c s' => Cat (Chr c) (Lit s')
  end.

Fixpoint nullable (r : regex) : bool :=
  match r with
  | Void => false
  | Eps => true
  | Cls _ => false
  | Cat r1 r2 => nullable r1 && nullable r2
  | Alt r1 r2 => nullable r1 || nullable r2
  | Star _ => true
  end.

Fixpoint deriv (c : ascii) (r : regex) : regex :=
  match r with
  | Void => Void
  | Eps => Void
  | Cls p => if p c then Eps else Void
  | Cat r1 r2 =>
      if nullable r1 then Alt (Cat (deriv c r1) r2) (deriv c r2)
      else Cat (deriv c r1) r2
  | Alt r1 r2 => Alt (deriv c r1) (deriv c r2)
  | Star r' => Cat (deriv c r') (Star r')
  end.

Fixpoint accepts (r : regex) (s : string) : bool :=
  match s with
  | EmptyString => nullable r
  | String c s' => accepts (deriv c r) s'
  end.

Definition is_dot_digit (c : ascii) : bool :=
  bool_decide (c = "."%char) || is_digit c.

Definition units : regex :=
  Alt (Lit "kmh") (Alt (Lit "km/h") (Alt (Lit "kmph") (Alt (Lit "kph")
    (Alt (Lit "mph") (Lit "knots"))))).

(** line 6 without the final [$]:
    [([0-9][\.0-9]+?)(?:[ ]?(kmh|km/h|kmph|kph|mph|knots))?] *)
Definition pattern : regex :=
  Cat (Cat (Cls is_digit) (Plus (Cls is_dot_digit)))
      (Opt (Cat (Opt (Chr " ")) units)).

Definition newline : ascii := ascii_of_N 10.

(** [s] without its last character, when that is a newline *)
Fixpoint chomp (s : string) : option string :=
  match s with
  | EmptyString => None
  | String c EmptyString =>
      if bool_decide (c = newline) then Some EmptyString else None
  | String c s' => String c <$> chomp s'
  end.

(** [regex.match(s)] is not [None]: the pattern matches from the start, and
    [$] holds where it stops, at the end of [s] or just before a newline that
    ends [s] *)
Definition regex_match (s : string) : bool :=
  accepts pattern s ||
  match chomp s with
  | Some s' => accepts pattern s'
  | None => false
  end.

(** lines 11-12; a line is the dictionary [DictReader] yields, a missing
    trailing field being [None] *)
Definition convert_line (output : list (string * string))
    (line : list (string * option string)) : result (list (string * string)) :=
  match dict_get "numeric equivalent" line with
  | None => Exc (KeyError "numeric equivalent")
  | Some None => Exc TypeError
  | Some (Some ne) =>
      if regex_match ne then
        match dict_get "value" line with
        | None => Exc (KeyError "value")
        | Some None => Exc AttributeError
        | Some (Some v) => Ok (dict_set (lower v) ne output)
        end
      else Ok output
  end.

(** lines 9-12 *)
Fixpoint convert_from (output : list (string * string))
    (data : list (list (string * option string)))
    : result (list (string * string)) :=
  match data with
  | [] => Ok output
  | line :: data' =>
      match convert_line output line with
      | Ok output' => convert_from output' data'
      | Exc e => Exc e
      end
  end.

Definition convert (data : list (list (string * option string)))
    : result (list (string * string)) :=
  convert_from [] data.

(** a well-formed line with the two columns the script reads *)
Definition mk_line (value numeric : string) : list (string * option string) :=
  [("value", Some value); ("numeric equivalent", Some numeric)].

(** the reading of the pattern as "digits, optionally followed by a
    recognised unit, at the end of the string" *)
Definition digits_then_unit : regex :=
  Cat (Plus (Cls is_digit)) (Opt (Cat (Opt (Chr " ")) units)).

(** the strings that a regular expression matches from end to end *)
Inductive matches : regex → string → Prop :=
| matches_Eps : matches Eps ""
| matches_Cls (p : ascii → bool) (c : ascii) :
    p c = true → matches (Cls p) (String c "")
| matches_Cat (r1 r2 : regex) (s1 s2 : string) :
    matches r1 s1 → matches r2 s2 → matches (Cat r1 r2) (s1 +:+ s2)
| matches_Alt_l (r1 r2 : regex) (s : string) :
    matches r1 s → matches (Alt r1 r2) s
| matches_Alt_r (r1 r2 : regex) (s : string) :
    matches r2 s → matches (Alt r1 r2) s
| matches_Star_nil (r : regex) : matches (Star r) ""
| matches_Star_app (r : regex) (s1 s2 : string) :
    matches r s1 → matches (Star r) s2 → matches (Star r) (s1 +:+ s2).

Fixpoint str_forall (p : ascii → bool) (s : string) : bool :=
  match s with
  | EmptyString => true
  | String c s' => p c && str_forall p s'
  end.

(** the units of the pattern *)
Definition unit_names : list string :=
  ["kmh"; "km/h"; "kmph"; "kph"; "mph"; "knots"].

(** a row (value, numeric equivalent) that sets the entry for the key [k] *)
Definition sets_key (k : string) (row : string * string) : bool :=
  bool_decide (lower row.1 = k) && regex_match row.2.

(** the numeric equivalent of the last row that sets the entry for [k] *)
Definition last_set (k : string) (rows : list (string * string))
    : option string :=
  snd <$> last (filter (λ row, sets_key k row = true) rows).

End Convert.

(** * Properties *)

Import DownloadData.

(** string concatenation unfolds on constructors under [simpl] *)
#[local] Arguments String.append !s1 s2 : simpl nomatch.

(** ** Dictionaries *)

Section dict_facts.
Context {V : Type}.
Implicit Types (d : list (string * V)) (k : string) (v : V).

Lemma dict_get_set_eq k v d : dict_get k (dict_set k v d) = Some v.
Proof.
  induction d as [|[k' v'] d IH]; simpl.
  - by rewrite decide_True.
  - destruct (decide (k' = k)) as [->|Hne]; simpl.
    + by rewrite decide_True.
    + by rewrite decide_False.
Qed.

Lemma dict_get_set_ne k k' v d :
  k ≠ k' → dict_get k' (dict_set k v d) = dict_get k' d.
Proof.
  intros Hne. induction d as [|[k0 v0] d IH]; simpl.
  - by rewrite decide_False.
  - destruct (decide (k0 = k)) as [->|Hne0]; simpl.
    + by rewrite !decide_False.
    + destruct (decide (k0 = k')); [done | apply IH].
Qed.

Lemma dict_get_elem_of k v d : dict_get k d = Some v → (k, v) ∈ d.
Proof.
  induction d as [|[k' v'] d IH]; simpl; [done|].
  destruct (decide (k' = k)) as [->|Hne]; intros H.
  - injection H as ->. apply list_elem_of_here.
  - apply list_elem_of_further, IH, H.
Qed.

Lemma dict_keys_get k d : k ∈ dict_keys d → is_Some (dict_get k d).
Proof.
  induction d as [|[k' v'] d IH]; simpl.
  - intros H. by apply elem_of_nil in H.
  - intros H. destruct (decide (k' = k)) as [->|Hne]; [by eexists|].
    apply elem_of_cons in H as [H|H]; [simpl in H; congruence | by apply IH].
Qed.

Lemma dict_in_keys k d : dict_in k d = true ↔ k ∈ dict_keys d.
Proof.
  unfold dict_in. rewrite bool_decide_eq_true. split.
  - intros [v Hv]. apply dict_get_elem_of in Hv.
    unfold dict_keys. apply list_elem_of_fmap. by exists (k, v).
  - apply dict_keys_get.
Qed.

Lemma dict_set_fresh k v d : k ∉ dict_keys d → dict_set k v d = d ++ [(k, v)].
Proof.
  induction d as [|[k' v'] d IH]; simpl; [done|].
  intros Hk. apply not_elem_of_cons in Hk as [Hne Hk].
  rewrite decide_False by done. by rewrite IH.
Qed.

Lemma dict_keys_set_fresh k v d :
  k ∉ dict_keys d → dict_keys (dict_set k v d) = dict_keys d ++ [k].
Proof.
  intros Hk. rewrite dict_set_fresh by done. unfold dict_keys.
  by rewrite fmap_app.
Qed.

End dict_facts.

(** ** The table of FIPS codes *)

Lemma fipsCodes_shape :
  forallb (λ kv, two_chars is_upper_letter kv.1 && two_chars is_digit kv.2)
          fipsCodes = true.
Proof. vm_compute. reflexivity. Qed.

Lemma fipsCodes_keys_NoDup : NoDup (dict_keys fipsCodes).
Proof. apply (bool_decide_unpack _). vm_compute. exact I. Qed.

Lemma fipsCodes_codes_NoDup : NoDup (fipsCodes.*2).
Proof. apply (bool_decide_unpack _). vm_compute. exact I. Qed.

Lemma fipsCodes_length : length (dict_keys fipsCodes) = 55.
Proof. reflexivity. Qed.

Lemma two_chars_length p s : two_chars p s = true → String.length s = 2.
Proof. destruct s as [|a [|b [|c s]]]; simpl; congruence. Qed.

(** C7: every state abbreviation of the table is looked up to a string of
    exactly two decimal digits, the one the table lists; the abbreviation
    itself is two capital letters; CA is looked up to "06" and NY to "36". *)
Theorem fips_code_two_digits (state fips : string) :
  dict_get state fipsCodes = Some fips →
  (state, fips) ∈ fipsCodes ∧
  two_chars is_upper_letter state = true ∧
  two_chars is_digit fips = true ∧
  String.length fips = 2 ∧
  dict_get "CA" fipsCodes = Some "06" ∧
  dict_get "NY" fipsCodes = Some "36".
Proof.
  intros Hget. apply dict_get_elem_of in Hget as Hin.
  pose proof fipsCodes_shape as Hall.
  rewrite forallb_forall in Hall.
  assert (Hshape := Hall _ (proj1 (list_elem_of_In _ _) Hin)).
  apply andb_true_iff in Hshape as [Hst Hfips]. simpl in Hst, Hfips.
  repeat split; try done. by apply (two_chars_length is_digit).
Qed.

Lemma fips_code_two_digits_witness :
  dict_get "CA" fipsCodes = Some "06" ∧
  two_chars is_digit "06" = true.
Proof.
  split; [reflexivity|].
  apply (fips_code_two_digits "CA" "06"). reflexivity.
Defined.

(** ** Paths *)

Lemma str_app_nil_r (s : string) : s +:+ "" = s.
Proof. induction s as [|c s IH]; simpl; [done | by rewrite IH]. Qed.

Lemma str_app_assoc (a b c : string) : (a +:+ b) +:+ c = a +:+ (b +:+ c).
Proof. induction a as [|x a IH]; simpl; [done | by rewrite IH]. Qed.

Lemma walk_app (a b : string) : ∀ st, walk (a +:+ b) st = walk b (walk a st).
Proof.
  induction a as [|c a IH]; intros st; simpl; [done|].
  destruct (is_slash c); apply IH.
Qed.

Lemma walk_no_slash (s : string) : ∀ st,
  has_slash s = false → walk s st = (st.1 +:+ s, st.2).
Proof.
  induction s as [|c s IH]; intros [cur stk] Hs; simpl in *.
  - by rewrite str_app_nil_r.
  - apply orb_false_iff in Hs as [Hc Hs]. rewrite Hc, IH by done. simpl.
    by rewrite str_app_assoc.
Qed.

Lemma walk_ends_with_slash (s : string) : ∀ st,
  ends_with_slash s = true → (walk s st).1 = "".
Proof.
  unfold ends_with_slash.
  induction s as [|c s IH]; intros st Hs; simpl in *; [done|].
  destruct s as [|c' s].
  - rewrite Hs. done.
  - destruct (is_slash c); apply IH, Hs.
Qed.

Lemma startswith_cons (a b : ascii) (p s : string) :
  startswith (String a p) (String b s) =
  if Ascii.ascii_dec a b then startswith p s else false.
Proof. done. Qed.

Lemma startswith_nil (s : string) : startswith "" s = true.
Proof. by destruct s. Qed.

Lemma startswith_slash_app (s t : string) :
  s ≠ "" → startswith "/" (s +:+ t) = startswith "/" s.
Proof.
  destruct s as [|c s]; [done|]. intros _.
  change (String c s +:+ t) with (String c (s +:+ t)).
  rewrite !startswith_cons, !startswith_nil. done.
Qed.

Lemma plain_name_not_abs (name : string) :
  has_slash name = false → startswith "/" name = false.
Proof.
  destruct name as [|c s]; [done|]. intros H. simpl in H.
  apply orb_false_iff in H as [H _]. unfold is_slash in H.
  apply bool_decide_eq_false in H.
  rewrite startswith_cons.
  destruct (Ascii.ascii_dec "/" c) as [Heq|]; [|done].
  by destruct H.
Qed.

Lemma push_comp_plain (name : string) (stk : list string) :
  plain_name name → push_comp name stk = stk ++ [name].
Proof.
  intros (H1 & _ & H2 & H3). unfold push_comp.
  by rewrite !bool_decide_eq_false_2.
Qed.

Lemma resolve_as_walk (wd : list string) (p : string) :
  resolve wd p =
  push_comp (walk p ("", if startswith "/" p then [] else wd)).1
            (walk p ("", if startswith "/" p then [] else wd)).2.
Proof. done. Qed.

(** joining a plain name to a path goes one level down *)
Lemma resolve_join2 (wd : list string) (dir name : string) :
  plain_name name → resolve wd (join2 dir name) = resolve wd dir ++ [name].
Proof.
  intros Hn. pose proof Hn as (Hne & Hns & _).
  unfold join2. rewrite plain_name_not_abs by done.
  destruct (bool_decide (dir = "")) eqn:Hd; simpl.
  { apply bool_decide_eq_true in Hd as ->. simpl.
    unfold resolve. rewrite plain_name_not_abs by done.
    rewrite walk_no_slash by done. simpl.
    rewrite push_comp_plain by done. done. }
  apply bool_decide_eq_false in Hd.
  destruct (ends_with_slash dir) eqn:He.
  - rewrite !resolve_as_walk, startswith_slash_app by done.
    set (st0 := ("", if startswith "/" dir then [] else wd)).
    rewrite walk_app. pose proof (walk_ends_with_slash dir st0 He) as Hcur.
    destruct (walk dir st0) as [cur stk]; simpl in Hcur; subst cur.
    rewrite walk_no_slash by done. simpl.
    rewrite push_comp_plain by done. done.
  - rewrite !resolve_as_walk, startswith_slash_app by done.
    set (st0 := ("", if startswith "/" dir then [] else wd)).
    rewrite walk_app. destruct (walk dir st0) as [cur stk]; simpl.
    rewrite walk_no_slash by done. simpl.
    rewrite push_comp_plain by done. done.
Qed.

Lemma join2_not_empty (dir name : string) : name ≠ "" → join2 dir name ≠ "".
Proof.
  intros Hn. unfold join2.
  destruct (startswith "/" name); [done|].
  destruct (_ || _); destruct dir; simpl; done.
Qed.

Lemma str_last_app (s t : string) :
  t ≠ "" → str_last (s +:+ t) = str_last t.
Proof.
  intros Ht. induction s as [|c s IH]; simpl; [done|].
  rewrite IH. destruct (s +:+ t) eqn:E; [|done].
  destruct s; simpl in E; [done | discriminate].
Qed.

Lemma join2_ends_with_slash (dir name : string) :
  has_slash name = false → name ≠ "" →
  ends_with_slash (join2 dir name) = ends_with_slash name.
Proof.
  intros Hs Hn. unfold join2. rewrite plain_name_not_abs by done.
  unfold ends_with_slash.
  destruct (_ || _).
  - by rewrite str_last_app.
  - rewrite str_last_app; [|by destruct name].
    simpl. by destruct name.
Qed.

(** ** The file system *)

Implicit Types (f g : gmap (list string) node) (p q : list string).

Lemma fs_node_lookup (f : gmap (list string) node) (p : list string) :
  p ≠ [] → fs_node f p = f !! p.
Proof. by destruct p. Qed.

Lemma keeps_dirs_insert_file f p d :
  fs_node f p ≠ Some Dir → keeps_dirs f (<[p := File d]> f).
Proof.
  intros Hp q Hq. destruct q as [|x q]; [done|]. simpl in *.
  destruct (decide (p = x :: q)) as [->|Hne].
  - simpl in Hp. congruence.
  - by rewrite lookup_insert_ne.
Qed.

Lemma keeps_dirs_delete_file f p d :
  fs_node f p = Some (File d) → keeps_dirs f (delete p f).
Proof.
  intros Hp q Hq. destruct q as [|x q]; [done|]. simpl in *.
  destruct (decide (p = x :: q)) as [->|Hne].
  - simpl in Hp. congruence.
  - by rewrite lookup_delete_ne.
Qed.

Lemma lookup_mkdirs (l : list (list string)) f (x : list string) :
  foldr (λ q g, <[q := Dir]> g) f l !! x =
  if decide (x ∈ l) then Some Dir else f !! x.
Proof.
  induction l as [|q l IH]; simpl.
  - destruct (decide (x ∈ [])) as [H|]; [by apply elem_of_nil in H | done].
  - destruct (decide (q = x)) as [->|Hne].
    + rewrite lookup_insert_eq.
      destruct (decide (x ∈ x :: l)) as [|H]; [done|].
      destruct H. apply list_elem_of_here.
    + rewrite lookup_insert_ne by done. rewrite IH.
      destruct (decide (x ∈ l)) as [Hl|Hl],
               (decide (x ∈ q :: l)) as [H|H]; try done.
      * destruct H. by apply list_elem_of_further.
      * apply elem_of_cons in H as [?|?]; congruence.
Qed.

Lemma keeps_dirs_mkdirs l f :
  keeps_dirs f (foldr (λ q g, <[q := Dir]> g) f l).
Proof.
  intros q Hq. destruct q as [|x q]; [done|]. simpl in *.
  rewrite lookup_mkdirs. by destruct (decide _).
Qed.

Lemma fs_write_keeps_dirs f wd path d f' :
  fs_write f wd path d = Ok f' → keeps_dirs f f'.
Proof.
  unfold fs_write. destruct (ends_with_slash path); [done|].
  destruct (fs_node f (resolve wd path)) as [[|d0]|] eqn:Hn; [done|..];
    destruct (fs_node f (removelast (resolve wd path))) as [[|?]|]; try done;
    intros [= <-]; apply keeps_dirs_insert_file; congruence.
Qed.

Lemma fs_remove_keeps_dirs f wd path f' :
  fs_remove f wd path = Ok f' → keeps_dirs f f'.
Proof.
  unfold fs_remove.
  destruct (fs_node f (resolve wd path)) as [[|d0]|] eqn:Hn; try done.
  intros [= <-]. by eapply keeps_dirs_delete_file.
Qed.

Lemma fs_makedirs_keeps_dirs f wd path f' :
  fs_makedirs f wd path = Ok f' → keeps_dirs f f'.
Proof.
  unfold fs_makedirs. destruct (fs_node f (resolve wd path)); [done|].
  destruct (existsb _ _); [done|]. intros [= <-].
  apply (keeps_dirs_mkdirs (_ :: _)).
Qed.

#[local] Instance keeps_dirs_preorder : PreOrder keeps_dirs.
Proof. split; [by intros f p | intros f g h Hfg Hgh p Hp; by apply Hgh, Hfg]. Qed.

#[local] Instance steps_preorder : PreOrder steps.
Proof.
  split.
  - intros w. unfold steps. by repeat split.
  - intros w1 w2 w3 (Hc1 & Hn1 & Hk1 & Hd1) (Hc2 & Hn2 & Hk2 & Hd2).
    unfold steps. repeat split; [congruence | congruence | lia | by etrans].
Qed.

#[local] Instance quiet_preorder : PreOrder quiet.
Proof.
  split.
  - intros w. exists []. by rewrite app_nil_r.
  - intros w1 w2 w3 (e1 & H1 & Q1) (e2 & H2 & Q2). exists (e1 ++ e2).
    rewrite H2, H1, app_assoc. split; [done | by apply Forall_app].
Qed.

#[local] Instance offline_preorder : PreOrder offline.
Proof.
  split.
  - intros w. unfold offline. repeat split. exists []. by rewrite app_nil_r.
  - intros w1 w2 w3 (Hc1 & Hn1 & Hk1 & e1 & Hl1 & Ht1)
      (Hc2 & Hn2 & Hk2 & e2 & Hl2 & Ht2).
    unfold offline. repeat split; try congruence.
    exists (e1 ++ e2). rewrite Hl2, Hl1, app_assoc. split; [done|].
    unfold transfers in *. by rewrite filter_app, Ht1, Ht2.
Qed.

(** ** Computations *)

Section combinators.
Context (R : relation world) `{!PreOrder R}.

Lemma inv_ret {A} (a : A) : inv R (mret a).
Proof. intros w. simpl. reflexivity. Qed.

Lemma inv_raise {A} (e : exn) : inv R (@raise A e).
Proof. intros w. simpl. reflexivity. Qed.

Lemma inv_bind {A B} (m : M A) (f : A → M B) :
  inv R m → (∀ a, inv R (f a)) → inv R (m ≫= f).
Proof.
  intros Hm Hf w. unfold mbind, M_bind. specialize (Hm w).
  destruct (m w) as [[a|e] w1]; simpl in *; [|done].
  etrans; [exact Hm | apply Hf].
Qed.

Lemma inv_try {A} (m : M A) : inv R m → inv R (try_ m).
Proof.
  intros Hm w. unfold try_. specialize (Hm w).
  by destruct (m w) as [r w1].
Qed.

Lemma inv_for_each {A} (l : list A) (body : A → M unit) :
  (∀ x, inv R (body x)) → inv R (for_each l body).
Proof.
  intros Hb. induction l as [|x l IH]; simpl.
  - apply inv_ret.
  - apply inv_bind; [apply Hb | intros _; apply IH].
Qed.

End combinators.

(** Every part of the script that is built from the primitive operations
    keeps a relation [R] that the primitives keep; [Q] tells which events the
    relation admits. *)
Section primitives.
Context (R : relation world) `{!PreOrder R} (Q : event → Prop).
Hypothesis R_event : ∀ e w, Q e → R w (add_event e w).
Hypothesis R_call : ∀ w, R w (count_call w).
Hypothesis R_write : ∀ w path d f,
  fs_write (fs w) (cwd w) path d = Ok f → R w (set_fs f w).
Hypothesis R_remove : ∀ w path f,
  fs_remove (fs w) (cwd w) path = Ok f → R w (set_fs f w).
Hypothesis Q_sleep : ∀ n, Q (Sleep n).
Hypothesis Q_transfer : ∀ url path, Q (Urlretrieve url path).
Hypothesis Q_print : ∀ s, quiet_event (Print s) → Q (Print s).

Lemma inv_print s : quiet_event (Print s) → inv R (print s).
Proof. intros Hs w. apply R_event, Q_print, Hs. Qed.

Lemma inv_sleep n : inv R (sleep n).
Proof. intros w. apply R_event, Q_sleep. Qed.

Lemma inv_write_file path d : inv R (write_file path d).
Proof.
  intros w. unfold write_file, lift_fs.
  destruct (fs_write _ _ _ _) eqn:E; simpl; [by eapply R_write | reflexivity].
Qed.

Lemma inv_remove path : inv R (remove path).
Proof.
  intros w. unfold remove, lift_fs.
  destruct (fs_remove _ _ _) eqn:E; simpl; [by eapply R_remove | reflexivity].
Qed.

Lemma inv_ZipFile path : inv R (ZipFile path).
Proof. intros w. simpl. reflexivity. Qed.

Lemma inv_zf_open path : inv R (zf_open path).
Proof.
  apply inv_bind; [done | apply inv_ZipFile | intros; by apply inv_ret].
Qed.

Lemma inv_urlretrieve url path : inv R (urlretrieve url path).
Proof.
  intros w. unfold urlretrieve.
  set (w1 := count_call (add_event (Urlretrieve url path) w)).
  assert (R w w1) as Hw1.
  { etrans; [apply R_event, Q_transfer | apply R_call]. }
  destruct (net w (net_calls w) url) as [d|[d|]]; simpl; [| |done].
  - destruct (fs_write _ _ _ _) eqn:E; simpl; [|done].
    etrans; [exact Hw1 | by eapply R_write].
  - destruct (fs_write _ _ _ _) eqn:E; simpl; [|done].
    etrans; [exact Hw1 | by eapply R_write].
Qed.

Lemma inv_retrieve_from l url path : inv R (retrieve_from l url path).
Proof.
  induction l as [|i l IH]; simpl; [by apply inv_ret|].
  apply inv_bind; [done | |].
  - apply inv_try. apply inv_bind; [done | by apply inv_print |].
    intros _. apply inv_urlretrieve.
  - intros [_|_]; [by apply inv_ret|].
    apply inv_bind; [done | by apply inv_print |]. intros _.
    apply inv_bind; [done | apply inv_sleep | intros _; apply IH].
Qed.

Lemma inv_retrieve url path : inv R (retrieve url path).
Proof. apply inv_retrieve_from. Qed.

Lemma inv_extract outDir zipout : inv R (extract outDir zipout).
Proof.
  apply inv_bind; [done | apply inv_ZipFile |]. intros ms.
  apply inv_for_each; [done|]. intros m.
  apply inv_bind; [done | apply inv_zf_open | intros _; apply inv_write_file].
Qed.

Lemma inv_select_year state : inv R (select_year state).
Proof.
  unfold select_year.
  destruct (_ || _); [by apply inv_ret|].
  destruct (bool_decide (state = "PR") || bool_decide (state = "VI")) eqn:E;
    [|by apply inv_ret].
  apply inv_bind; [done | | intros _; by apply inv_ret].
  apply inv_print.
  apply orb_true_iff in E as [->%bool_decide_eq_true| ->%bool_decide_eq_true];
    reflexivity.
Qed.

Lemma inv_download_lodes outDir state : inv R (download_lodes outDir state).
Proof.
  apply inv_bind; [done | by apply inv_print |]. intros _.
  apply inv_bind; [done | apply inv_select_year |]. intros year.
  destruct (bool_decide (year ≠ 0)); [|by apply inv_ret].
  apply inv_bind; [done | by apply inv_print |]. intros _.
  apply inv_bind; [done | apply inv_retrieve | intros _; apply inv_retrieve].
Qed.

(** the rest of [download_tiger], once the state has been announced *)
Lemma inv_tiger_rest outDir state :
  inv R (print "Downloading TIGER";;
         fips ← match dict_get state fipsCodes with
                | Some fips => mret fips
                | None => raise (KeyError state)
                end;
         retrieve (tiger_url fips)
                  (path_join outDir ["tiger"; state +:+ ".zip"]);;
         extract outDir (path_join outDir ["tiger"; state +:+ ".zip"]);;
         remove (path_join outDir ["tiger"; state +:+ ".zip"]);;
         print "Done with TIGER").
Proof.
  apply inv_bind; [done | by apply inv_print |]. intros _.
  apply inv_bind; [done | |].
  { destruct (dict_get state fipsCodes); [by apply inv_ret | by apply inv_raise]. }
  intros fips.
  apply inv_bind; [done | apply inv_retrieve |]. intros _.
  apply inv_bind; [done | apply inv_extract |]. intros _.
  apply inv_bind; [done | apply inv_remove | intros _; by apply inv_print].
Qed.

(** the rest of [process_state], once the state has been announced *)
Lemma inv_state_rest outDir state (m : M unit) :
  inv R m →
  inv R (m;; download_lodes outDir state;; print ("Done with " +:+ state)).
Proof.
  intros Hm. apply inv_bind; [done | exact Hm |]. intros _.
  apply inv_bind; [done | apply inv_download_lodes |]. intros _.
  by apply inv_print.
Qed.

End primitives.

(** ** What the steps of the script keep *)

Lemma steps_event e w : steps w (add_event e w).
Proof. unfold steps. by repeat split. Qed.

Lemma steps_call w : steps w (count_call w).
Proof. unfold steps. simpl. repeat split; [lia | done]. Qed.

Lemma steps_set_fs w f : keeps_dirs (fs w) f → steps w (set_fs f w).
Proof. intros Hf. unfold steps. by repeat split. Qed.

Lemma quiet_event_step e w : quiet_event e → quiet w (add_event e w).
Proof. intros He. exists [e]. split; [done | by apply Forall_singleton]. Qed.

Lemma quiet_same_log w w' : log w' = log w → quiet w w'.
Proof. intros Hl. exists []. by rewrite app_nil_r. Qed.

Lemma offline_print s w : offline w (add_event (Print s) w).
Proof. unfold offline. repeat split. by exists [Print s]. Qed.

Ltac steps_prims :=
  first [ done
        | by (intros; apply steps_event)
        | by apply steps_call
        | by (intros ? ? ? ? Hf; eapply steps_set_fs, fs_write_keeps_dirs, Hf)
        | by (intros ? ? ? Hf; eapply steps_set_fs, fs_remove_keeps_dirs, Hf) ].

Ltac quiet_prims :=
  first [ done
        | by (intros; apply quiet_event_step)
        | by (intros; apply quiet_same_log) ].

Lemma steps_retrieve url path : inv steps (retrieve url path).
Proof. apply (inv_retrieve steps (λ _, True)); steps_prims. Qed.

Lemma quiet_retrieve url path : inv quiet (retrieve url path).
Proof. apply (inv_retrieve quiet quiet_event); quiet_prims. Qed.

Lemma processed_app l1 l2 : processed (l1 ++ l2) = processed l1 ++ processed l2.
Proof. apply omap_app. Qed.

Lemma processed_quiet evs : Forall quiet_event evs → processed evs = [].
Proof.
  induction 1 as [|e evs He _ IH]; [done|].
  unfold processed, quiet_event in *. simpl. rewrite He. exact IH.
Qed.

Lemma substring_all (s : string) : String.substring 0 (String.length s) s = s.
Proof. induction s as [|c s IH]; simpl; [done | by rewrite IH]. Qed.

Lemma processing_of_announce (state : string) :
  processing_of (Print ("processing " +:+ state)) = Some state.
Proof.
  unfold processing_of. simpl.
  by rewrite startswith_nil, Nat.sub_0_r, substring_all.
Qed.

(** [process_state] announces the state and then runs quietly *)
Lemma process_state_announce outDir state w :
  process_state outDir state w =
  (( print "Downloading TIGER";;
     fips ← match dict_get state fipsCodes with
            | Some fips => mret fips
            | None => raise (KeyError state)
            end;
     retrieve (tiger_url fips)
              (path_join outDir ["tiger"; state +:+ ".zip"]);;
     extract outDir (path_join outDir ["tiger"; state +:+ ".zip"]);;
     remove (path_join outDir ["tiger"; state +:+ ".zip"]);;
     print "Done with TIGER" );;
   download_lodes outDir state;;
   print ("Done with " +:+ state))
    (add_event (Print ("processing " +:+ state)) w).
Proof. done. Qed.

Lemma process_state_steps outDir state : inv steps (process_state outDir state).
Proof.
  intros w. rewrite process_state_announce.
  etrans; [apply (steps_event (Print ("processing " +:+ state)))|].
  apply (inv_state_rest steps (λ _, True)); try steps_prims.
  apply (inv_tiger_rest steps (λ _, True)); steps_prims.
Qed.

Lemma process_state_log outDir state w :
  ∃ evs, log (process_state outDir state w).2 =
         log w ++ Print ("processing " +:+ state) :: evs ∧
         Forall quiet_event evs.
Proof.
  rewrite process_state_announce.
  set (w1 := add_event (Print ("processing " +:+ state)) w).
  assert (inv quiet
    (( print "Downloading TIGER";;
       fips ← match dict_get state fipsCodes with
              | Some fips => mret fips
              | None => raise (KeyError state)
              end;
       retrieve (tiger_url fips)
                (path_join outDir ["tiger"; state +:+ ".zip"]);;
       extract outDir (path_join outDir ["tiger"; state +:+ ".zip"]);;
       remove (path_join outDir ["tiger"; state +:+ ".zip"]);;
       print "Done with TIGER" );;
     download_lodes outDir state;;
     print ("Done with " +:+ state))) as Hq.
  { apply (inv_state_rest quiet quiet_event); try quiet_prims.
    apply (inv_tiger_rest quiet quiet_event); quiet_prims. }
  destruct (Hq w1) as (evs & Hl & Hevs). exists evs. split; [|done].
  rewrite Hl. subst w1. simpl. by rewrite <- app_assoc.
Qed.

Lemma processed_announce (state : string) (evs : list event) :
  processed (Print ("processing " +:+ state) :: evs) = state :: processed evs.
Proof.
  pose proof (processing_of_announce state) as Ha.
  unfold processed. simpl in *. by rewrite Ha.
Qed.

(** the states announced by the loop are the work list, in order, as far as
    the loop got *)
Lemma for_each_processed outDir (states : list string) : ∀ w,
  ∃ evs, log (for_each states (process_state outDir) w).2 = log w ++ evs ∧
         processed evs `prefix_of` states ∧
         ((for_each states (process_state outDir) w).1 = Ok tt →
          processed evs = states).
Proof.
  induction states as [|state states IH]; intros w; simpl.
  - exists []. by rewrite app_nil_r.
  - unfold mbind, M_bind.
    destruct (process_state_log outDir state w) as (evs1 & Hl1 & Hq1).
    destruct (process_state outDir state w) as [[[]|e] w1] eqn:E; simpl in *.
    + destruct (IH w1) as (evs2 & Hl2 & Hp2 & Hok2).
      exists (Print ("processing " +:+ state) :: evs1 ++ evs2).
      rewrite Hl2, Hl1, <- app_assoc. split; [done|].
      rewrite processed_announce, processed_app, (processed_quiet evs1) by done.
      simpl. split; [by apply prefix_cons | intros H; by rewrite Hok2].
    + exists (Print ("processing " +:+ state) :: evs1).
      split; [done|].
      rewrite processed_announce, processed_quiet by done.
      split; [apply prefix_cons, prefix_nil | done].
Qed.

(** ** Setting up *)

Lemma select_states_run states w :
  select_states states w =
  if is_all states
  then (Ok (dict_keys fipsCodes), add_event (Print "Downloading all states") w)
  else (Ok states, w).
Proof. unfold select_states. by destruct (is_all states). Qed.

Lemma check_inputs_run states w :
  check_inputs states w =
  (Ok tt,
   if bool_decide (0 < length (invalidStates states))
   then add_event (Print ("Did not recognize states " +:+
                          join_str " " (invalidStates states))) w
   else w).
Proof. unfold check_inputs. by destruct (bool_decide _). Qed.

Lemma makedirs_run path w :
  makedirs path w =
  match fs_makedirs (fs w) (cwd w) path with
  | Ok f => (Ok tt, set_fs f w)
  | Exc e => (Exc e, w)
  end.
Proof. done. Qed.

Lemma makedirs_world path w :
  ∃ f, (makedirs path w).2 = set_fs f w ∧ keeps_dirs (fs w) f.
Proof.
  rewrite makedirs_run. destruct (fs_makedirs _ _ _) as [f|e] eqn:E; simpl.
  - exists f. split; [done | by eapply fs_makedirs_keeps_dirs].
  - exists (fs w). by destruct w.
Qed.

Lemma make_directories_world outDir w :
  ∃ f, (make_directories outDir w).2 = set_fs f w ∧ keeps_dirs (fs w) f.
Proof.
  unfold make_directories, mbind, M_bind.
  destruct (makedirs_world (path_join outDir ["tiger"]) w) as (f1 & H1 & K1).
  destruct (makedirs (path_join outDir ["tiger"]) w) as [[[]|e1] w1];
    simpl in H1; subst w1; [|by exists f1].
  destruct (makedirs_world (path_join outDir ["jobs"]) (set_fs f1 w))
    as (f2 & H2 & K2).
  destruct (makedirs (path_join outDir ["jobs"]) (set_fs f1 w)) as [[[]|e2] w2];
    simpl in H2; subst w2; [|exists f2; split; [done | by etrans]].
  destruct (makedirs_world (path_join outDir ["workforce"]) (set_fs f2 (set_fs f1 w)))
    as (f3 & H3 & K3).
  exists f3. split; [exact H3 | by repeat (etrans; [eassumption|])].
Qed.

(** the part of [setup] before the directories are made only prints *)
Lemma setup_run argv w :
  ∃ evs, Forall quiet_event evs ∧ transfers evs = [] ∧
    setup argv w =
    match argv !! 1 with
    | None => (Exc IndexError, w)
    | Some outDir =>
        match make_directories outDir
                (World (fs w) (cwd w) (net w) (net_calls w) (log w ++ evs)) with
        | (Ok _, w1) => (Ok (outDir, work_list argv), w1)
        | (Exc e, w1) => (Exc e, w1)
        end
    end.
Proof.
  unfold setup, mbind, M_bind, work_list.
  destruct (argv !! 1) as [outDir|]; simpl; [|by exists []].
  rewrite select_states_run.
  destruct (is_all (parse_states (drop 2 argv))) eqn:Hall.
  - rewrite check_inputs_run.
    destruct (bool_decide (0 < length (invalidStates (dict_keys fipsCodes)))) eqn:Hinv.
    { vm_compute in Hinv. discriminate. }
    exists [Print "Downloading all states"].
    split; [by apply Forall_singleton|]. split; [done|].
    unfold add_event. simpl.
    by destruct (make_directories outDir _) as [[[]|e] w1].
  - rewrite check_inputs_run.
    destruct (bool_decide _).
    + exists [Print ("Did not recognize states " +:+
                     join_str " " (invalidStates (parse_states (drop 2 argv))))].
      split; [by apply Forall_singleton|]. split; [done|].
      unfold add_event. simpl.
      by destruct (make_directories outDir _) as [[[]|e] w1].
    + exists []. split; [done|]. split; [done|]. rewrite app_nil_r.
      destruct w. simpl.
      by destruct (make_directories outDir _) as [[[]|e] w1].
Qed.

Lemma main_run argv w :
  main argv w =
  match setup argv w with
  | (Ok (outDir, states), w1) => for_each states (process_state outDir) w1
  | (Exc e, w1) => (Exc e, w1)
  end.
Proof.
  unfold main, mbind, M_bind. by destruct (setup argv w) as [[[o s]|e] w1].
Qed.

Lemma run_result {A : Type} (m : M A) (w : world) (a : A) :
  (m w).1 = Ok a → m w = (Ok a, (m w).2).
Proof. destruct (m w) as [r w']. simpl. by intros ->. Qed.

Lemma fipsCodes_all_valid : invalidStates (dict_keys fipsCodes) = [].
Proof. vm_compute. reflexivity. Qed.

(** C3 (as amended): with the sentinel as the only state argument, in any
    letter case, a run that completes has started the processing of exactly
    the keys of the table of FIPS codes, in the order of the table, each
    once; the table has 55 keys. *)
Theorem all_regions_processed (prog outDir arg : string) (w w' : world) :
  upper arg = "ALL" →
  main [prog; outDir; arg] w = (Ok tt, w') →
  ∃ evs, log w' = log w ++ evs ∧
         processed evs = dict_keys fipsCodes ∧
         NoDup (processed evs) ∧
         length (processed evs) = 55.
Proof.
  intros Hall Hmain. rewrite main_run in Hmain.
  destruct (setup_run [prog; outDir; arg] w) as (evs0 & Hq0 & _ & Hsetup).
  rewrite Hsetup in Hmain. simpl in Hmain.
  set (w0 := World (fs w) (cwd w) (net w) (net_calls w) (log w ++ evs0)) in *.
  destruct (make_directories_world outDir w0) as (f & Hw1 & _).
  destruct (make_directories outDir w0) as [[[]|e] w1]; [|done].
  simpl in Hw1. subst w1.
  assert (work_list [prog; outDir; arg] = dict_keys fipsCodes) as Hwl.
  { unfold work_list, parse_states. simpl. by rewrite Hall. }
  rewrite Hwl in Hmain.
  destruct (for_each_processed outDir (dict_keys fipsCodes) (set_fs f w0))
    as (evs & Hl & _ & Hok).
  rewrite Hmain in Hl, Hok. simpl in Hl, Hok. specialize (Hok eq_refl).
  exists (evs0 ++ evs). rewrite Hl, app_assoc. split; [done|].
  rewrite processed_app, (processed_quiet evs0), Hok by done. simpl.
  split; [done|]. split; [apply fipsCodes_keys_NoDup | done].
Qed.

(** ** Resilient retrieval *)

Lemma urlretrieve_world url path w :
  ∃ f, (urlretrieve url path w).2 =
       set_fs f (count_call (add_event (Urlretrieve url path) w)) ∧
       (f = fs w ∨ ∃ d, fs_write (fs w) (cwd w) path d = Ok f).
Proof.
  unfold urlretrieve. simpl.
  destruct (net w (net_calls w) url) as [d|[d|]]; simpl.
  - destruct (fs_write (fs w) (cwd w) path d) as [f|e] eqn:E; simpl.
    + exists f. split; [done | right; by exists d].
    + exists (fs w). by split; [|left].
  - destruct (fs_write (fs w) (cwd w) path d) as [f|e] eqn:E; simpl.
    + exists f. split; [done | right; by exists d].
    + exists (fs w). by split; [|left].
  - exists (fs w). by split; [|left].
Qed.

Lemma urlretrieve_failed url path w partial :
  net w (net_calls w) url = Failed partial →
  ∃ e, (urlretrieve url path w).1 = Exc e.
Proof.
  intros Hn. unfold urlretrieve. simpl. rewrite Hn.
  destruct partial as [d|]; [|by eexists].
  destruct (fs_write _ _ _ _); by eexists.
Qed.

Lemma fs_write_writable f wd path d :
  writable f wd path →
  fs_write f wd path d = Ok (<[resolve wd path := File d]> f).
Proof.
  intros (Hs & Hn & Hp). unfold fs_write. rewrite Hs, Hp.
  by destruct (fs_node f (resolve wd path)) as [[|?]|].
Qed.

Lemma removelast_shorter (p : list string) : p ≠ [] → removelast p ≠ p.
Proof.
  intros Hp Heq. destruct (exists_last Hp) as (q & x & ->).
  rewrite removelast_last in Heq.
  apply (f_equal length) in Heq. rewrite length_app in Heq. simpl in Heq. lia.
Qed.

Lemma writable_after_write f wd path d f' :
  writable f wd path → fs_write f wd path d = Ok f' → writable f' wd path.
Proof.
  intros Hw Hf. rewrite fs_write_writable in Hf by done. injection Hf as <-.
  destruct Hw as (Hs & Hn & Hp). split; [done|].
  assert (resolve wd path ≠ []) as Hne.
  { intros Heq. rewrite Heq in Hn. by destruct Hn. }
  split.
  - rewrite fs_node_lookup by done. by rewrite lookup_insert_eq.
  - destruct (decide (removelast (resolve wd path) = [])) as [->|Hq]; [done|].
    rewrite fs_node_lookup in * by done.
    rewrite lookup_insert_ne; [done|].
    intros Heq. symmetry in Heq. by apply removelast_shorter in Heq.
Qed.

Lemma urlretrieve_fetched url path w d :
  net w (net_calls w) url = Fetched d →
  writable (fs w) (cwd w) path →
  urlretrieve url path w =
  (Ok tt, set_fs (<[resolve (cwd w) path := File d]> (fs w))
                 (count_call (add_event (Urlretrieve url path) w))).
Proof.
  intros Hn Hw. unfold urlretrieve. simpl. rewrite Hn.
  by rewrite fs_write_writable.
Qed.

Lemma retrieve_from_step i rest url path w :
  retrieve_from (i :: rest) url path w =
  match urlretrieve url path
          (add_event (Print ("download attempt " +:+ pretty i)) w) with
  | (Ok _, w1) => (Ok tt, w1)
  | (Exc _, w1) =>
      retrieve_from rest url path
        (add_event (Sleep 5)
           (add_event (Print ("error retrieving " +:+ url +:+ ", retrying")) w1))
  end.
Proof.
  simpl. unfold mbind, M_bind, try_, print. simpl.
  by destruct (urlretrieve url path _) as [[[]|e] w1].
Qed.

(** the shape of every retrieval: [k] failed attempts, each followed by a
    pause of 5, then either a successful attempt or, after the last of the
    [n] attempts allowed, nothing; no exception leaves the loop *)
Lemma retrieve_from_shape url path (n : nat) : ∀ i w,
  ∃ (k : nat) (ok : bool),
    (retrieve_from (seq i n) url path w).1 = Ok tt ∧
    log (retrieve_from (seq i n) url path w).2 =
      log w ++ failed_attempts url path i k ++
      (if ok then last_attempt url path (i + k) else []) ∧
    net_calls (retrieve_from (seq i n) url path w).2 =
      net_calls w + k + (if ok then 1 else 0) ∧
    (if ok then k < n else k = n).
Proof.
  induction n as [|n IH]; intros i w.
  { exists 0, false. simpl. by rewrite app_nil_r, !Nat.add_0_r. }
  simpl seq. rewrite retrieve_from_step.
  set (w0 := add_event (Print ("download attempt " +:+ pretty i)) w).
  destruct (urlretrieve_world url path w0) as (f & Hw1 & _).
  destruct (urlretrieve url path w0) as [[[]|e] w1]; simpl in Hw1; subst w1.
  - exists 0, true. simpl. rewrite Nat.add_0_r.
    split; [done|]. split; [by rewrite <- app_assoc|]. split; lia.
  - set (w2 := add_event _ (add_event _ _)).
    destruct (IH (S i) w2) as (k & ok & Hr & Hl & Hc & Hk).
    exists (S k), ok. split; [done|]. split; [|split].
    + rewrite Hl. subst w2 w0. simpl. rewrite <- !app_assoc. simpl.
      by replace (i + S k) with (S i + k) by lia.
    + rewrite Hc. subst w2 w0. simpl. lia.
    + destruct ok; lia.
Qed.

Lemma transfers_app l1 l2 : transfers (l1 ++ l2) = transfers l1 ++ transfers l2.
Proof. apply filter_app. Qed.

Lemma transfers_failed_attempts url path k : ∀ i,
  transfers (failed_attempts url path i k) = replicate k (Urlretrieve url path).
Proof.
  induction k as [|k IH]; intros i; [done|].
  simpl. unfold transfers in *. rewrite filter_cons_False by done.
  rewrite filter_cons_True by done. rewrite !filter_cons_False by done.
  by rewrite IH.
Qed.

(** a retrieval transfers between once and 50 times, always the same URL to
    the same path, and returns normally *)
Lemma retrieve_transfers url path w :
  ∃ evs k,
    (retrieve url path w).1 = Ok tt ∧
    log (retrieve url path w).2 = log w ++ evs ∧
    transfers evs = replicate k (Urlretrieve url path) ∧
    1 ≤ k ≤ 50 ∧
    net_calls (retrieve url path w).2 = net_calls w + k.
Proof.
  destruct (retrieve_from_shape url path 50 0 w) as (k & ok & Hr & Hl & Hc & Hk).
  fold (retrieve url path) in *.
  exists (failed_attempts url path 0 k ++
          (if ok then last_attempt url path (0 + k) else [])),
         (k + (if ok then 1 else 0)).
  split; [done|]. split; [done|]. split; [|split].
  - rewrite transfers_app, transfers_failed_attempts.
    destruct ok; simpl.
    + by rewrite replicate_add.
    + by rewrite app_nil_r, Nat.add_0_r.
  - destruct ok; lia.
  - rewrite Hc. lia.
Qed.

Lemma retrieve_from_fail_then_ok url path d (N : nat) : ∀ n i w,
  N < n →
  (∀ j, j < N → ∃ partial, net w (net_calls w + j) url = Failed partial) →
  net w (net_calls w + N) url = Fetched d →
  writable (fs w) (cwd w) path →
  (retrieve_from (seq i n) url path w).1 = Ok tt ∧
  log (retrieve_from (seq i n) url path w).2 =
    log w ++ failed_attempts url path i N ++ last_attempt url path (i + N) ∧
  net_calls (retrieve_from (seq i n) url path w).2 = net_calls w + (N + 1) ∧
  fs_node (fs (retrieve_from (seq i n) url path w).2) (resolve (cwd w) path) =
    Some (File d).
Proof.
  induction N as [|N IH]; intros n i w Hn Hfail Hok Hw;
    (destruct n as [|n]; [lia|]); simpl seq; rewrite retrieve_from_step;
    set (w0 := add_event (Print ("download attempt " +:+ pretty i)) w).
  - rewrite Nat.add_0_r in Hok.
    rewrite (urlretrieve_fetched url path w0 d) by done. simpl.
    rewrite Nat.add_0_r. split; [done|]. split; [by rewrite <- app_assoc|].
    split; [lia|].
    assert (resolve (cwd w) path ≠ []) as Hne.
    { intros Heq. destruct Hw as (_ & Hd & _). rewrite Heq in Hd. by destruct Hd. }
    rewrite fs_node_lookup by done. by rewrite lookup_insert_eq.
  - destruct (Hfail 0) as [partial Hp]; [lia|]. rewrite Nat.add_0_r in Hp.
    destruct (urlretrieve_failed url path w0 partial Hp) as [e He].
    destruct (urlretrieve_world url path w0) as (f & Hw1 & Hf).
    destruct (urlretrieve url path w0) as [r w1]. simpl in He, Hw1. subst r w1.
    set (w2 := add_event _ (add_event _ _)).
    destruct (IH n (S i) w2) as (Hr & Hl & Hc & Hfile).
    + lia.
    + intros j Hj. destruct (Hfail (S j)) as [p' Hp']; [lia|].
      exists p'. subst w2 w0. simpl. rewrite <- Hp'. f_equal. lia.
    + subst w2 w0. simpl. rewrite <- Hok. f_equal. lia.
    + subst w2 w0. simpl. destruct Hf as [->|[d' Hd']]; [done|].
      by eapply writable_after_write.
    + split; [done|]. split; [|split].
      * rewrite Hl. subst w2 w0. simpl. rewrite <- !app_assoc. simpl.
        by replace (i + S N) with (S i + N) by lia.
      * rewrite Hc. subst w2 w0. simpl. lia.
      * exact Hfile.
Qed.

Lemma retrieve_from_all_fail url path (n : nat) : ∀ i w,
  (∀ j, j < n → ∃ partial, net w (net_calls w + j) url = Failed partial) →
  (retrieve_from (seq i n) url path w).1 = Ok tt ∧
  log (retrieve_from (seq i n) url path w).2 =
    log w ++ failed_attempts url path i n ∧
  net_calls (retrieve_from (seq i n) url path w).2 = net_calls w + n.
Proof.
  induction n as [|n IH]; intros i w Hfail.
  { simpl. by rewrite app_nil_r, Nat.add_0_r. }
  simpl seq. rewrite retrieve_from_step.
  set (w0 := add_event (Print ("download attempt " +:+ pretty i)) w).
  destruct (Hfail 0) as [partial Hp]; [lia|]. rewrite Nat.add_0_r in Hp.
  destruct (urlretrieve_failed url path w0 partial Hp) as [e He].
  destruct (urlretrieve_world url path w0) as (f & Hw1 & Hf).
  destruct (urlretrieve url path w0) as [r w1]. simpl in He, Hw1. subst r w1.
  set (w2 := add_event _ (add_event _ _)).
  destruct (IH (S i) w2) as (Hr & Hl & Hc).
  - intros j Hj. destruct (Hfail (S j)) as [p' Hp']; [lia|].
    exists p'. subst w2 w0. simpl. rewrite <- Hp'. f_equal. lia.
  - split; [done|]. split.
    + rewrite Hl. subst w2 w0. simpl. by rewrite <- !app_assoc.
    + rewrite Hc. subst w2 w0. simpl. lia.
Qed.

(** C2: a retrieval never raises and always returns the same value; it makes
    at most 50 attempts, each failed one followed by a pause of 5; when the
    first [N < 50] transfers fail and the next one succeeds, it makes exactly
    [N + 1] attempts and the file is in place; when all 50 fail, it has made
    50 attempts and still returns normally. *)
Theorem retrieve_resilient (url path : string) (w : world) :
  (retrieve url path w).1 = Ok tt ∧
  (∃ (k : nat) (ok : bool),
     log (retrieve url path w).2 =
       log w ++ failed_attempts url path 0 k ++
       (if ok then last_attempt url path k else []) ∧
     net_calls (retrieve url path w).2 =
       net_calls w + k + (if ok then 1 else 0) ∧
     k + (if ok then 1 else 0) ≤ 50) ∧
  (∀ (N : nat) (d : fdata),
     N < 50 →
     (∀ j, j < N → ∃ partial, net w (net_calls w + j) url = Failed partial) →
     net w (net_calls w + N) url = Fetched d →
     writable (fs w) (cwd w) path →
     log (retrieve url path w).2 =
       log w ++ failed_attempts url path 0 N ++ last_attempt url path N ∧
     net_calls (retrieve url path w).2 = net_calls w + (N + 1) ∧
     fs_node (fs (retrieve url path w).2) (resolve (cwd w) path) =
       Some (File d)) ∧
  ((∀ j, j < 50 → ∃ partial, net w (net_calls w + j) url = Failed partial) →
   log (retrieve url path w).2 = log w ++ failed_attempts url path 0 50 ∧
   net_calls (retrieve url path w).2 = net_calls w + 50).
Proof.
  split; [|split; [|split]].
  - by destruct (retrieve_transfers url path w) as (? & ? & ? & _).
  - destruct (retrieve_from_shape url path 50 0 w) as (k & ok & _ & Hl & Hc & Hk).
    exists k, ok. split; [exact Hl|]. split; [exact Hc|]. destruct ok; lia.
  - intros N d HN Hfail Hok Hw.
    by destruct (retrieve_from_fail_then_ok url path d N 50 0 w)
      as (_ & ? & ? & ?).
  - intros Hfail.
    by destruct (retrieve_from_all_fail url path 50 0 w) as (_ & ? & ?).
Qed.

Lemma retrieve_resilient_witness :
  let w := initial (flaky 2 (Raw "data")) in
  log (retrieve "http://host/f.gz" "f.gz" w).2 =
    log w ++ failed_attempts "http://host/f.gz" "f.gz" 0 2 ++
    last_attempt "http://host/f.gz" "f.gz" 2 ∧
  net_calls (retrieve "http://host/f.gz" "f.gz" w).2 = net_calls w + (2 + 1) ∧
  fs_node (fs (retrieve "http://host/f.gz" "f.gz" w).2)
          (resolve (cwd w) "f.gz") = Some (File (Raw "data")).
Proof.
  intros w.
  destruct (retrieve_resilient "http://host/f.gz" "f.gz" w) as (_ & _ & H & _).
  apply (H 2 (Raw "data")).
  - lia.
  - intros j Hj. exists None. destruct j as [|[|j]]; [reflexivity.. | lia].
  - reflexivity.
  - split; [reflexivity|]. split; [|reflexivity]. by vm_compute.
Defined.

Lemma all_regions_processed_witness :
  ∃ evs,
    log (main ["downloadData.py"; "out"; "all"] (initial (flaky 0 shapefiles))).2 =
      log (initial (flaky 0 shapefiles)) ++ evs ∧
    processed evs = dict_keys fipsCodes ∧
    NoDup (processed evs) ∧
    length (processed evs) = 55.
Proof.
  apply (all_regions_processed "downloadData.py" "out" "all");
    [reflexivity|].
  apply run_result. vm_compute. reflexivity.
Defined.

(** C3 (as stated) fails: the work list built for the sentinel is the list of
    the keys of the table, and that list has 55 entries, not 56. *)
Lemma all_regions_not_56 :
  work_list ["downloadData.py"; "out"; "ALL"] = dict_keys fipsCodes ∧
  length (work_list ["downloadData.py"; "out"; "ALL"]) = 55 ∧
  bool_decide (length (work_list ["downloadData.py"; "out"; "ALL"]) = 56) = false.
Proof. by vm_compute. Qed.

(** ** The sentinel *)

Lemma is_all_singleton (arg : string) :
  upper arg = "ALL" → is_all (parse_states [arg]) = true.
Proof. intros H. unfold is_all, parse_states. simpl. by rewrite H. Qed.

Lemma is_all_length (states : list string) :
  length states ≠ 1 → is_all states = false.
Proof.
  intros H. unfold is_all. by rewrite bool_decide_eq_false_2.
Qed.

Lemma unknown_state_raises outDir state w :
  dict_get state fipsCodes = None →
  process_state outDir state w =
  (Exc (KeyError state),
   add_event (Print "Downloading TIGER")
     (add_event (Print ("processing " +:+ state)) w)).
Proof.
  intros H. rewrite process_state_announce.
  unfold mbind, M_bind, print. cbn beta iota. by rewrite H.
Qed.

(** C9: the sentinel is looked for after the arguments are put in upper
    case, so any spelling whose upper case is ALL counts; it is expanded to
    the keys of the table only when it is the only state argument; next to
    other arguments it stays in the work list as the state ALL, which is
    reported as not recognised and whose lookup raises KeyError. *)
Theorem all_sentinel_sole_argument (args : list string) (arg outDir : string)
    (w : world) :
  arg ∈ args →
  upper arg = "ALL" →
  (args = [arg] →
   select_states (parse_states args) w =
   (Ok (dict_keys fipsCodes), add_event (Print "Downloading all states") w)) ∧
  (args ≠ [arg] →
   select_states (parse_states args) w = (Ok (upper <$> args), w) ∧
   "ALL" ∈ invalidStates (upper <$> args) ∧
   (process_state outDir "ALL" w).1 = Exc (KeyError "ALL")).
Proof.
  intros Hin Hup. split.
  - intros ->. rewrite select_states_run. by rewrite is_all_singleton.
  - intros Hne. rewrite select_states_run, is_all_length.
    + split; [done|]. split.
      * unfold invalidStates. apply list_elem_of_filter. split; [done|].
        rewrite <- Hup. by apply list_elem_of_fmap_2.
      * by rewrite unknown_state_raises.
    + unfold parse_states. rewrite length_fmap. intros Hlen.
      destruct args as [|x [|y args]]; simpl in Hlen; try lia.
      apply list_elem_of_singleton in Hin. by subst.
Qed.

Lemma all_sentinel_sole_argument_witness :
  select_states (parse_states ["ca"; "aLl"]) (initial (flaky 0 shapefiles)) =
    (Ok ["CA"; "ALL"], initial (flaky 0 shapefiles)) ∧
  "ALL" ∈ invalidStates ["CA"; "ALL"] ∧
  (process_state "out" "ALL" (initial (flaky 0 shapefiles))).1 =
    Exc (KeyError "ALL").
Proof.
  apply (all_sentinel_sole_argument ["ca"; "aLl"] "aLl" "out"
           (initial (flaky 0 shapefiles))).
  - apply list_elem_of_further, list_elem_of_here.
  - reflexivity.
  - discriminate.
Defined.

(** ** The year of the LODES data *)

Lemma select_year_cases (state : string) (w : world) :
  (state ∈ ["AK"; "SD"] ∧ select_year state w = (Ok 2016, w)) ∨
  (state ∈ ["PR"; "VI"] ∧
   select_year state w =
   (Ok 0, add_event (Print (state +:+ " does not have LODES data available")) w)) ∨
  (state ∉ ["AK"; "SD"; "PR"; "VI"] ∧ select_year state w = (Ok 2017, w)).
Proof.
  unfold select_year.
  destruct (decide (state = "AK")) as [->|H1]; [left; split; [set_solver | done]|].
  destruct (decide (state = "SD")) as [->|H2]; [left; split; [set_solver | done]|].
  destruct (decide (state = "PR")) as [->|H3];
    [right; left; split; [set_solver | done]|].
  destruct (decide (state = "VI")) as [->|H4];
    [right; left; split; [set_solver | done]|].
  right; right. split; [set_solver|].
  by rewrite !bool_decide_eq_false_2.
Qed.

Lemma select_year_result (state : string) (w w' : world) :
  (select_year state w).1 = (select_year state w').1.
Proof.
  unfold select_year. destruct (_ || _); [done|]. by destruct (_ || _).
Qed.

Lemma select_year_nonzero (state : string) (w : world) (year : nat) :
  (select_year state w).1 = Ok year → year ≠ 0 →
  select_year state w = (Ok year, w).
Proof.
  unfold select_year. destruct (_ || _); [by intros [= <-]|].
  destruct (_ || _); simpl; by intros [= <-].
Qed.

Lemma download_lodes_run outDir state w :
  download_lodes outDir state w =
  match select_year state (add_event (Print "Downloading LODES data") w) with
  | (Ok year, w1) =>
      if bool_decide (year ≠ 0) then
        match retrieve (lodes_url "rac" state year)
                (path_join outDir ["workforce"; lodes_file "rac" state year])
                (add_event (Print ("Downloading " +:+ pretty year +:+
                                   " LODES data for " +:+ state)) w1) with
        | (Ok _, w2) =>
            retrieve (lodes_url "wac" state year)
              (path_join outDir ["jobs"; lodes_file "wac" state year]) w2
        | (Exc e, w2) => (Exc e, w2)
        end
      else (Ok tt, w1)
  | (Exc e, w1) => (Exc e, w1)
  end.
Proof.
  unfold download_lodes, mbind, M_bind, print. cbn beta iota.
  destruct (select_year state _) as [[year|e] w1]; [|done].
  destruct (bool_decide (year ≠ 0)); [|done].
  by destruct (retrieve _ _ _) as [[[]|e] w2].
Qed.

(** C6: the year asked for is 2016 exactly for AK and SD and 2017 for every
    state other than AK, SD, PR and VI; exactly for PR and VI no year is
    chosen, and then the LODES step only prints: no transfer is attempted
    and no file is touched; for every other state the step transfers the rac
    file and then the wac file of the chosen year, and nothing else. *)
Theorem lodes_vintage (outDir state : string) (w : world) :
  ((select_year state w).1 = Ok 2016 ↔ state ∈ ["AK"; "SD"]) ∧
  ((select_year state w).1 = Ok 0 ↔ state ∈ ["PR"; "VI"]) ∧
  (state ∉ ["AK"; "SD"; "PR"; "VI"] → select_year state w = (Ok 2017, w)) ∧
  (state ∈ ["PR"; "VI"] →
   download_lodes outDir state w =
   (Ok tt,
    add_event (Print (state +:+ " does not have LODES data available"))
      (add_event (Print "Downloading LODES data") w))) ∧
  (∀ year, (select_year state w).1 = Ok year → year ≠ 0 →
   ∃ evs n1 n2,
     (download_lodes outDir state w).1 = Ok tt ∧
     log (download_lodes outDir state w).2 = log w ++ evs ∧
     transfers evs =
       replicate n1 (Urlretrieve (lodes_url "rac" state year)
         (path_join outDir ["workforce"; lodes_file "rac" state year])) ++
       replicate n2 (Urlretrieve (lodes_url "wac" state year)
         (path_join outDir ["jobs"; lodes_file "wac" state year])) ∧
     1 ≤ n1 ≤ 50 ∧ 1 ≤ n2 ≤ 50).
Proof.
  split; [|split; [|split; [|split]]].
  - destruct (select_year_cases state w) as [[Hs ->]|[[Hs ->]|[Hs ->]]]; simpl;
      split; try done; set_solver.
  - destruct (select_year_cases state w) as [[Hs ->]|[[Hs ->]|[Hs ->]]]; simpl;
      split; try done; set_solver.
  - intros Hs.
    destruct (select_year_cases state w) as [[Hs' ?]|[[Hs' ?]|[_ ?]]];
      [set_solver | set_solver | done].
  - intros Hs. rewrite download_lodes_run.
    destruct (select_year_cases state (add_event (Print "Downloading LODES data") w))
      as [[Hs' ?]|[[_ ->]|[Hs' ?]]]; [set_solver | done | set_solver].
  - intros year Hy Hy0. rewrite download_lodes_run.
    set (w0 := add_event (Print "Downloading LODES data") w).
    rewrite (select_year_nonzero state w0 year);
      [|by rewrite (select_year_result state w0 w)|done].
    rewrite bool_decide_eq_true_2 by done.
    set (w1 := add_event _ w0).
    destruct (retrieve_transfers (lodes_url "rac" state year)
                (path_join outDir ["workforce"; lodes_file "rac" state year]) w1)
      as (evs1 & n1 & Hr1 & Hl1 & Ht1 & Hn1 & _).
    destruct (retrieve _ _ w1) as [r1 w2]. simpl in Hr1, Hl1. subst r1.
    destruct (retrieve_transfers (lodes_url "wac" state year)
                (path_join outDir ["jobs"; lodes_file "wac" state year]) w2)
      as (evs2 & n2 & Hr2 & Hl2 & Ht2 & Hn2 & _).
    exists ([Print "Downloading LODES data";
             Print ("Downloading " +:+ pretty year +:+ " LODES data for " +:+ state)]
            ++ evs1 ++ evs2), n1, n2.
    split; [done|]. split; [|split; [|done]].
    + rewrite Hl2, Hl1. subst w1 w0. simpl. by rewrite <- !app_assoc.
    + rewrite !transfers_app, Ht1, Ht2. done.
Qed.

Lemma lodes_vintage_witness :
  download_lodes "out" "PR" (initial (flaky 0 shapefiles)) =
  (Ok tt,
   add_event (Print "PR does not have LODES data available")
     (add_event (Print "Downloading LODES data") (initial (flaky 0 shapefiles)))) ∧
  select_year "CA" (initial (flaky 0 shapefiles)) =
  (Ok 2017, initial (flaky 0 shapefiles)).
Proof.
  destruct (lodes_vintage "out" "PR" (initial (flaky 0 shapefiles)))
    as (_ & _ & _ & Hpr & _).
  destruct (lodes_vintage "out" "CA" (initial (flaky 0 shapefiles)))
    as (_ & _ & Hca & _).
  split.
  - apply Hpr, list_elem_of_here.
  - apply Hca. apply (bool_decide_unpack _). vm_compute. exact I.
Defined.

(** ** The directory layout *)

Lemma plain_tiger : plain_name "tiger".
Proof. by repeat split. Qed.











(** ** The loop over the states *)

(** the log of a run: what the set-up prints, then the log of the loop *)
Lemma main_log (argv : list string) (w : world) :
  ∃ evs0 w1,
    log w1 = log w ++ evs0 ∧ Forall quiet_event evs0 ∧ transfers evs0 = [] ∧
    (main argv w = for_each (work_list argv) (process_state (default "" (argv !! 1))) w1
     ∨ ∃ e, main argv w = (Exc e, w1)).
Proof.
  rewrite main_run.
  destruct (setup_run argv w) as (evs0 & Hq0 & Ht0 & Hsetup).
  rewrite Hsetup. destruct (argv !! 1) as [outDir|]; simpl.
  - set (w0 := World (fs w) (cwd w) (net w) (net_calls w) (log w ++ evs0)).
    destruct (make_directories_world outDir w0) as (f & Hw1 & _).
    destruct (make_directories outDir w0) as [[[]|e] w1];
      simpl in Hw1; subst w1; exists evs0, (set_fs f w0);
      (split; [done|]); (split; [done|]); (split; [done|]).
    + by left.
    + right. by exists e.
  - exists [], w. rewrite app_nil_r. split; [done|]. split; [done|].
    split; [done|]. right. by exists IndexError.
Qed.

(** X3: in every run, completed or not, the states whose processing was
    started are an initial part of the work list, in its order; when the run
    completes they are the whole work list. *)
Theorem announced_in_order (argv : list string) (w : world) :
  ∃ evs,
    log (main argv w).2 = log w ++ evs ∧
    processed evs `prefix_of` work_list argv ∧
    ((main argv w).1 = Ok tt → processed evs = work_list argv).
Proof.
  destruct (main_log argv w) as (evs0 & w1 & Hl1 & Hq0 & _ & [Hmain|[e Hmain]]);
    rewrite Hmain.
  - destruct (for_each_processed (default "" (argv !! 1)) (work_list argv) w1)
      as (evs & Hl & Hp & Hok).
    exists (evs0 ++ evs). rewrite Hl, Hl1, app_assoc. split; [done|].
    rewrite processed_app, (processed_quiet evs0) by done. by split.
  - exists evs0. simpl. split; [done|]. rewrite processed_quiet by done.
    split; [apply prefix_nil | done].
Qed.

Lemma dict_in_false {V : Type} (k : string) (d : list (string * V)) :
  dict_in k d = false → dict_get k d = None.
Proof.
  unfold dict_in. intros H%bool_decide_eq_false.
  destruct (dict_get k d); [|done]. destruct H. by eexists.
Qed.

Lemma for_each_unknown outDir (state : string) (pre rest : list string) :
  dict_get state fipsCodes = None →
  ∀ w, ∃ e evs,
    (for_each (pre ++ state :: rest) (process_state outDir) w).1 = Exc e ∧
    log (for_each (pre ++ state :: rest) (process_state outDir) w).2 =
      log w ++ evs ∧
    ((e = KeyError state ∧ processed evs = pre ++ [state]) ∨
     processed evs `prefix_of` pre).
Proof.
  intros Hget. induction pre as [|s pre IH]; intros w; simpl;
    unfold mbind, M_bind.
  - rewrite unknown_state_raises by done.
    exists (KeyError state),
      [Print ("processing " +:+ state); Print "Downloading TIGER"].
    split; [done|]. split; [simpl; by rewrite <- app_assoc|]. left.
    split; [done|]. by rewrite processed_announce.
  - destruct (process_state_log outDir s w) as (evs1 & Hl1 & Hq1).
    destruct (process_state outDir s w) as [[[]|e] w1]; simpl in *.
    + destruct (IH w1) as (e & evs & He & Hl & Hcase).
      exists e, (Print ("processing " +:+ s) :: evs1 ++ evs).
      split; [done|]. rewrite Hl, Hl1, <- app_assoc. split; [done|].
      rewrite processed_announce, processed_app, (processed_quiet evs1) by done.
      simpl. destruct Hcase as [[-> ->]|Hp]; [by left | right].
      by apply prefix_cons.
    + exists e, (Print ("processing " +:+ s) :: evs1).
      split; [done|]. split; [done|]. right.
      rewrite processed_announce, processed_quiet by done.
      apply prefix_cons, prefix_nil.
Qed.

(** X4: a state of the work list that is not in the table of FIPS codes
    ends the run with an exception: either the run stops earlier, or it
    reaches that state, announces it and stops there with KeyError.  The
    states after it in the work list are never started, recognised or
    not. *)
Theorem unrecognised_state_aborts (argv pre rest : list string)
    (state : string) (w : world) :
  work_list argv = pre ++ state :: rest →
  dict_in state fipsCodes = false →
  ∃ e evs,
    (main argv w).1 = Exc e ∧
    log (main argv w).2 = log w ++ evs ∧
    ((e = KeyError state ∧ processed evs = pre ++ [state]) ∨
     processed evs `prefix_of` pre).
Proof.
  intros Hwl Hin%dict_in_false.
  destruct (main_log argv w) as (evs0 & w1 & Hl1 & Hq0 & _ & [Hmain|[e Hmain]]);
    rewrite Hmain.
  - rewrite Hwl.
    destruct (for_each_unknown (default "" (argv !! 1)) state pre rest Hin w1)
      as (e & evs & He & Hl & Hcase).
    exists e, (evs0 ++ evs). split; [done|].
    rewrite Hl, Hl1, app_assoc. split; [done|].
    by rewrite processed_app, (processed_quiet evs0).
  - exists e, evs0. simpl. split; [done|]. split; [done|]. right.
    rewrite processed_quiet by done. apply prefix_nil.
Qed.

Lemma unrecognised_state_aborts_witness :
  ∃ e evs,
    (main ["downloadData.py"; "out"; "xx"; "ca"]
       (initial (flaky 0 shapefiles))).1 = Exc e ∧
    log (main ["downloadData.py"; "out"; "xx"; "ca"]
           (initial (flaky 0 shapefiles))).2 =
      log (initial (flaky 0 shapefiles)) ++ evs ∧
    ((e = KeyError "XX" ∧ processed evs = [] ++ ["XX"]) ∨
     processed evs `prefix_of` []).
Proof.
  apply (unrecognised_state_aborts ["downloadData.py"; "out"; "xx"; "ca"]
           [] ["CA"] "XX" (initial (flaky 0 shapefiles))); reflexivity.
Defined.

(** ** Reporting the states that are not recognised *)

Lemma work_list_not_all (argv : list string) :
  invalidStates (work_list argv) ≠ [] →
  is_all (parse_states (drop 2 argv)) = false ∧
  work_list argv = parse_states (drop 2 argv).
Proof.
  unfold work_list. destruct (is_all _); [|done].
  by rewrite fipsCodes_all_valid.
Qed.

(** X18: when the work list holds states that are not in the table, the
    first thing a run prints is the message that names them, in the order of
    the work list and separated by spaces; this happens before the
    directories are made and before any state is processed. *)
Theorem unrecognised_states_reported (argv : list string) (outDir : string)
    (w : world) :
  argv !! 1 = Some outDir →
  invalidStates (work_list argv) ≠ [] →
  (setup argv w).2 =
    (make_directories outDir
       (add_event (Print ("Did not recognize states " +:+
                          join_str " " (invalidStates (work_list argv)))) w)).2 ∧
  ∃ evs,
    log (main argv w).2 =
      log w ++
      Print ("Did not recognize states " +:+
             join_str " " (invalidStates (work_list argv))) :: evs.
Proof.
  intros Hargv Hinv. destruct (work_list_not_all argv Hinv) as [Hall Hwl].
  rewrite Hwl in *.
  set (msg := Print ("Did not recognize states " +:+
                     join_str " " (invalidStates (parse_states (drop 2 argv))))).
  assert (setup argv w =
          match make_directories outDir (add_event msg w) with
          | (Ok _, w1) => (Ok (outDir, parse_states (drop 2 argv)), w1)
          | (Exc e, w1) => (Exc e, w1)
          end) as Hsetup.
  { unfold setup, mbind, M_bind. rewrite Hargv. simpl.
    rewrite select_states_run, Hall, check_inputs_run.
    rewrite bool_decide_eq_true_2.
    - unfold msg.
      by destruct (make_directories outDir (add_event _ w)) as [[[]|e] w1].
    - destruct (invalidStates _); [done | simpl; lia]. }
  destruct (make_directories_world outDir (add_event msg w)) as (f & Hw1 & _).
  split.
  - rewrite Hsetup.
    by destruct (make_directories outDir (add_event msg w)) as [[[]|e] w1].
  - rewrite main_run, Hsetup.
    destruct (make_directories outDir (add_event msg w)) as [[[]|e] w1];
      simpl in Hw1; subst w1.
    + destruct (for_each_processed outDir (parse_states (drop 2 argv))
                  (set_fs f (add_event msg w))) as (evs & Hl & _).
      exists evs. rewrite Hl. simpl. by rewrite <- app_assoc.
    + by exists [].
Qed.

Lemma unrecognised_states_reported_witness :
  (setup ["downloadData.py"; "out"; "xx"; "ca"; "yy"]
     (initial (flaky 0 shapefiles))).2 =
    (make_directories "out"
       (add_event
          (Print ("Did not recognize states " +:+
                  join_str " " (invalidStates
                    (work_list ["downloadData.py"; "out"; "xx"; "ca"; "yy"]))))
          (initial (flaky 0 shapefiles)))).2 ∧
  ∃ evs,
    log (main ["downloadData.py"; "out"; "xx"; "ca"; "yy"]
           (initial (flaky 0 shapefiles))).2 =
      log (initial (flaky 0 shapefiles)) ++
      Print ("Did not recognize states " +:+
             join_str " " (invalidStates
               (work_list ["downloadData.py"; "out"; "xx"; "ca"; "yy"]))) :: evs.
Proof.
  apply (unrecognised_states_reported
           ["downloadData.py"; "out"; "xx"; "ca"; "yy"] "out"
           (initial (flaky 0 shapefiles))).
  - reflexivity.
  - discriminate.
Defined.

(** ** Extraction of the archive *)

#[local] Instance fdata_eq_dec : EqDecision fdata.
Proof. solve_decision. Defined.

#[local] Instance node_eq_dec : EqDecision node.
Proof. solve_decision. Defined.

Lemma cut_last_slash_tail (p : string) : has_slash (cut_last_slash p).2 = false.
Proof.
  induction p as [|c p IH]; [done|]. simpl.
  destruct (cut_last_slash p) as [h t]. simpl in IH.
  destruct h as [|x h]; [|done].
  destruct (is_slash c) eqn:Hc; simpl; [done|]. by rewrite Hc.
Qed.

(** the base name of a path has no separator *)
Lemma path_split_tail (p : string) : has_slash (path_split p).2 = false.
Proof.
  unfold path_split. pose proof (cut_last_slash_tail p) as H.
  by destruct (cut_last_slash p) as [h t].
Qed.

(** joining a name without separator to a path: one component more *)
Lemma resolve_join2_push (wd : list string) (dir name : string) :
  has_slash name = false →
  resolve wd (join2 dir name) = push_comp name (resolve wd dir).
Proof.
  intros Hns. unfold join2. rewrite plain_name_not_abs by done.
  destruct (bool_decide (dir = "")) eqn:Hd; simpl.
  { apply bool_decide_eq_true in Hd as ->. simpl.
    unfold resolve. rewrite plain_name_not_abs by done.
    by rewrite walk_no_slash by done. }
  apply bool_decide_eq_false in Hd.
  destruct (ends_with_slash dir) eqn:He.
  - rewrite !resolve_as_walk, startswith_slash_app by done.
    set (st0 := ("", if startswith "/" dir then [] else wd)).
    rewrite walk_app. pose proof (walk_ends_with_slash dir st0 He) as Hcur.
    destruct (walk dir st0) as [cur stk]; simpl in Hcur; subst cur.
    by rewrite walk_no_slash by done.
  - rewrite !resolve_as_walk, startswith_slash_app by done.
    set (st0 := ("", if startswith "/" dir then [] else wd)).
    rewrite walk_app. destruct (walk dir st0) as [cur stk]; simpl.
    by rewrite walk_no_slash by done.
Qed.

(** where a member of the archive is written *)
Lemma resolve_dest (wd : list string) (outDir name : string) :
  has_slash name = false →
  resolve wd (path_join outDir ["tiger"; name]) =
  push_comp name (resolve wd outDir ++ ["tiger"]).
Proof.
  intros Hns. unfold path_join. simpl.
  rewrite resolve_join2_push by done.
  by rewrite resolve_join2 by apply plain_tiger.
Qed.

Lemma slash_free_cases (name : string) :
  has_slash name = false →
  plain_name name ∨ name = "" ∨ name = "." ∨ name = "..".
Proof.
  intros Hns. unfold plain_name.
  destruct (decide (name = "")); [tauto|].
  destruct (decide (name = ".")); [tauto|].
  destruct (decide (name = "..")); tauto.
Qed.

Lemma removelast_snoc (l : list string) (x : string) : removelast (l ++ [x]) = l.
Proof. apply removelast_last. Qed.

(** one member: either its base name is a file name proper and the member is
    written under that name directly in the tiger directory, or an exception
    is raised and nothing changes; the exception is IsADirectoryError when
    the archive can be read and the base name is not a file name proper *)
Lemma extract_member_effect (outDir zipout : string) (member : string * string)
    (w : world) :
  fs_node (fs w) (resolve (cwd w) outDir) = Some Dir →
  fs_node (fs w) (resolve (cwd w) outDir ++ ["tiger"]) = Some Dir →
  (plain_name (path_split member.1).2 ∧
   extract_member outDir zipout member w =
   (Ok tt,
    set_fs (<[resolve (cwd w) outDir ++ ["tiger"; (path_split member.1).2] :=
               File (Raw member.2)]> (fs w)) w)) ∨
  (∃ e, extract_member outDir zipout member w = (Exc e, w) ∧
        (∀ ms, fs_read_zip (fs w) (cwd w) zipout = Ok ms →
               ¬ plain_name (path_split member.1).2 →
               e = IsADirectoryError
                     (path_join outDir ["tiger"; (path_split member.1).2]))).
Proof.
  intros Hroot Htiger.
  assert (has_slash (path_split member.1).2 = false) as Hns
    by apply path_split_tail.
  unfold extract_member, zf_open, ZipFile, mbind, M_bind, mret, M_ret.
  remember (path_split member.1).2 as name eqn:Hname. clear Hname.
  set (root := resolve (cwd w) outDir) in *.
  destruct (fs_read_zip (fs w) (cwd w) zipout) as [ms|e0] eqn:Hzip.
  2:{ right. exists e0. split; [done|]. intros ms' [=]. }
  unfold write_file, lift_fs, fs_write.
  rewrite resolve_dest by done. fold root.
  destruct (ends_with_slash (path_join outDir ["tiger"; name])) eqn:Hend.
  { right. eexists. split; [done|]. done. }
  destruct (slash_free_cases name Hns) as [Hplain|[Hn|[Hn|Hn]]].
  - rewrite push_comp_plain by done.
    rewrite removelast_snoc, Htiger, <- app_assoc. simpl.
    destruct (fs_node (fs w) (root ++ ["tiger"; name])) as [[|d0]|] eqn:Hp.
    + right. eexists. split; [done|]. intros _ _ Hnp. by destruct Hnp.
    + left. by split.
    + left. by split.
  - rewrite Hn. unfold push_comp. simpl. rewrite Htiger.
    right. eexists. split; [done|]. done.
  - rewrite Hn. unfold push_comp. simpl. rewrite Htiger.
    right. eexists. split; [done|]. done.
  - rewrite Hn. unfold push_comp. simpl. rewrite removelast_snoc, Hroot.
    right. eexists. split; [done|]. done.
Qed.

Lemma insert_below_tiger (f : gmap (list string) node) (root : list string)
    (name : string) (n : node) (q : list string) :
  q = root ∨ q = root ++ ["tiger"] →
  fs_node (<[root ++ ["tiger"; name] := n]> f) q = fs_node f q.
Proof.
  intros Hq. destruct q as [|x q]; [done|]. simpl.
  apply lookup_insert_ne. intros Heq.
  apply (f_equal length) in Heq.
  destruct Hq as [Hq|Hq]; rewrite Hq in Heq;
    rewrite !length_app in Heq; simpl in Heq; lia.
Qed.

Lemma extract_run (outDir zipout : string) (w : world) :
  extract outDir zipout w =
  match fs_read_zip (fs w) (cwd w) zipout with
  | Ok ms => for_each ms (extract_member outDir zipout) w
  | Exc e => (Exc e, w)
  end.
Proof. unfold extract, ZipFile, mbind, M_bind. by destruct (fs_read_zip _ _ _). Qed.

(** the members written by the loop of lines 119-124 *)
Lemma for_each_extract (outDir zipout : string) (ms : list (string * string)) :
  ∀ (w : world) (q : list string),
  fs_node (fs w) (resolve (cwd w) outDir) = Some Dir →
  fs_node (fs w) (resolve (cwd w) outDir ++ ["tiger"]) = Some Dir →
  fs_node (fs (for_each ms (extract_member outDir zipout) w).2) q ≠
    fs_node (fs w) q →
  ∃ member, member ∈ ms ∧
    plain_name (path_split member.1).2 ∧
    q = resolve (cwd w) outDir ++ ["tiger"; (path_split member.1).2] ∧
    fs_node (fs (for_each ms (extract_member outDir zipout) w).2) q =
      Some (File (Raw member.2)).
Proof.
  induction ms as [|m ms IH]; intros w q Hroot Htiger Hq; simpl in *; [done|].
  unfold mbind, M_bind in *.
  destruct (extract_member_effect outDir zipout m w Hroot Htiger)
    as [[Hplain Hrun]|(e & Hrun & _)]; rewrite Hrun in *; simpl in *; [|done].
  set (p := resolve (cwd w) outDir ++ ["tiger"; (path_split m.1).2]) in *.
  set (w1 := set_fs (<[p := File (Raw m.2)]> (fs w)) w) in *.
  destruct (decide (fs_node (fs (for_each ms (extract_member outDir zipout) w1).2) q
                    = fs_node (fs w1) q)) as [Heq|Hne].
  - exists m. split; [apply list_elem_of_here|]. split; [done|].
    rewrite Heq in *. subst w1. simpl in *.
    destruct (decide (q = p)) as [->|Hqp].
    + split; [done|]. subst p. rewrite fs_node_lookup by by destruct (resolve _ _).
      by rewrite lookup_insert_eq.
    + destruct Hq. destruct q as [|x q]; [done|]. simpl.
      by rewrite lookup_insert_ne.
  - destruct (IH w1 q) as (member & Hin & Hpl & Hqeq & Hfile); try done.
    + subst w1 p. simpl. rewrite insert_below_tiger by by left. done.
    + subst w1 p. simpl. rewrite insert_below_tiger by by right. done.
    + exists member. split; [by apply list_elem_of_further | done].
Qed.



Lemma for_each_extract_blocked (outDir zipout : string)
    (member : string * string) (ms : list (string * string)) :
  ¬ plain_name (path_split member.1).2 →
  member ∈ ms →
  ∀ w,
    fs_node (fs w) (resolve (cwd w) outDir) = Some Dir →
    fs_node (fs w) (resolve (cwd w) outDir ++ ["tiger"]) = Some Dir →
    ∃ e, (for_each ms (extract_member outDir zipout) w).1 = Exc e.
Proof.
  intros Hnp Hin. induction ms as [|m ms IH]; intros w Hroot Htiger;
    [by apply elem_of_nil in Hin|].
  simpl. unfold mbind, M_bind.
  destruct (extract_member_effect outDir zipout m w Hroot Htiger)
    as [[Hplain Hrun]|(e & Hrun & _)]; rewrite Hrun.
  - apply elem_of_cons in Hin as [->|Hin]; [done|].
    apply IH; [done|..]; simpl; rewrite insert_below_tiger; auto.
  - by exists e.
Qed.

(** X6: when a member of the archive has a base name that is not a file
    name proper (a directory entry such as [shapes/], whose base name is
    empty, or a name that ends in [.] or [..]), unpacking raises an
    exception, so that the archive is not removed: it is still there
    afterwards.  When that member is the first one, the exception is
    IsADirectoryError for the path it was to be written to, and nothing has
    changed. *)
Theorem directory_entry_blocks_removal (outDir zipout : string)
    (ms : list (string * string)) (member : string * string) (w : world) :
  fs_node (fs w) (resolve (cwd w) outDir) = Some Dir →
  fs_node (fs w) (resolve (cwd w) outDir ++ ["tiger"]) = Some Dir →
  fs_read_zip (fs w) (cwd w) zipout = Ok ms →
  member ∈ ms →
  ¬ plain_name (path_split member.1).2 →
  ∃ e,
    ((extract outDir zipout;; remove zipout) w).1 = Exc e ∧
    is_Some (fs_node (fs ((extract outDir zipout;; remove zipout) w).2)
                     (resolve (cwd w) zipout)) ∧
    (head ms = Some member →
     e = IsADirectoryError
           (path_join outDir ["tiger"; (path_split member.1).2]) ∧
     ((extract outDir zipout;; remove zipout) w).2 = w).
Proof.
  intros Hroot Htiger Hzip Hin Hnp.
  unfold mbind, M_bind. rewrite extract_run, Hzip.
  destruct (for_each_extract_blocked outDir zipout member ms Hnp Hin w
              Hroot Htiger) as [e He].
  pose proof (for_each_extract outDir zipout ms w (resolve (cwd w) zipout)
                Hroot Htiger) as Hch.
  destruct (for_each ms (extract_member outDir zipout) w) as [r w'] eqn:Hrun.
  simpl in He, Hch. subst r. exists e. simpl. split; [done|]. split.
  - destruct (decide (fs_node (fs w') (resolve (cwd w) zipout) =
                      fs_node (fs w) (resolve (cwd w) zipout))) as [->|Hne].
    + unfold fs_read_zip in Hzip.
      destruct (fs_node (fs w) (resolve (cwd w) zipout)); [by eexists | done].
    + destruct (Hch Hne) as (? & _ & _ & _ & ->). by eexists.
  - intros Hhead. destruct ms as [|m ms']; [done|]. injection Hhead as ->.
    simpl in Hrun. unfold mbind, M_bind in Hrun.
    destruct (extract_member_effect outDir zipout member w Hroot Htiger)
      as [[Hpl _]|(e' & Hrun' & He')]; [done|].
    rewrite Hrun' in Hrun. injection Hrun as <- <-.
    split; [by eapply He' | done].
Qed.

Lemma directory_entry_blocks_removal_witness :
  ∃ e,
    ((extract "out" "out/tiger/CA.zip";; remove "out/tiger/CA.zip")
       (unpacking [("shapes/", ""); ("shapes/tl.shp", "points")])).1 = Exc e ∧
    is_Some
      (fs_node
         (fs ((extract "out" "out/tiger/CA.zip";; remove "out/tiger/CA.zip")
                (unpacking [("shapes/", ""); ("shapes/tl.shp", "points")])).2)
         (resolve (cwd (unpacking [("shapes/", ""); ("shapes/tl.shp", "points")]))
                  "out/tiger/CA.zip")) ∧
    (head [("shapes/", ""); ("shapes/tl.shp", "points")] = Some ("shapes/", "") →
     e = IsADirectoryError
           (path_join "out" ["tiger"; (path_split ("shapes/", "").1).2]) ∧
     ((extract "out" "out/tiger/CA.zip";; remove "out/tiger/CA.zip")
        (unpacking [("shapes/", ""); ("shapes/tl.shp", "points")])).2 =
     unpacking [("shapes/", ""); ("shapes/tl.shp", "points")]).
Proof.
  apply (directory_entry_blocks_removal "out" "out/tiger/CA.zip"
           [("shapes/", ""); ("shapes/tl.shp", "points")] ("shapes/", "")
           (unpacking [("shapes/", ""); ("shapes/tl.shp", "points")])).
  - reflexivity.
  - reflexivity.
  - reflexivity.
  - apply list_elem_of_here.
  - intros [H _]. by apply H.
Defined.

(** ** The shapes of a state, when all goes well *)

Lemma no_slash_not_ends (s : string) :
  has_slash s = false → ends_with_slash s = false.
Proof.
  unfold ends_with_slash. induction s as [|c s IH]; [done|]. simpl.
  intros [Hc Hs]%orb_false_iff. destruct s as [|c' s]; [done|]. by apply IH.
Qed.

Lemma resolve_dest_plain (wd : list string) (outDir name : string) :
  plain_name name →
  resolve wd (path_join outDir ["tiger"; name]) =
  resolve wd outDir ++ ["tiger"; name].
Proof.
  intros Hn. pose proof Hn as (_ & Hns & _).
  rewrite resolve_dest by done. rewrite push_comp_plain by done.
  by rewrite <- app_assoc.
Qed.

Lemma dest_not_slash (outDir name : string) :
  plain_name name →
  ends_with_slash (path_join outDir ["tiger"; name]) = false.
Proof.
  intros (Hne & Hns & _). unfold path_join. simpl.
  rewrite join2_ends_with_slash by done. by apply no_slash_not_ends.
Qed.

(** a file name proper can be written in the tiger directory unless a
    directory of that name is there *)
Lemma writable_in_tiger (f : gmap (list string) node) (wd : list string)
    (outDir name : string) :
  plain_name name →
  fs_node f (resolve wd outDir ++ ["tiger"]) = Some Dir →
  fs_node f (resolve wd outDir ++ ["tiger"; name]) ≠ Some Dir →
  writable f wd (path_join outDir ["tiger"; name]).
Proof.
  intros Hn Htiger Hp. unfold writable.
  rewrite resolve_dest_plain by done. split; [by apply dest_not_slash|].
  split; [done|].
  replace (resolve wd outDir ++ ["tiger"; name])
    with ((resolve wd outDir ++ ["tiger"]) ++ [name]) by by rewrite <- app_assoc.
  by rewrite removelast_snoc.
Qed.

Lemma extract_member_ok (outDir zipout : string) (member : string * string)
    (ms0 : list (string * string)) (w : world) :
  plain_name (path_split member.1).2 →
  fs_node (fs w) (resolve (cwd w) outDir ++ ["tiger"]) = Some Dir →
  fs_node (fs w) (resolve (cwd w) outDir ++ ["tiger"; (path_split member.1).2])
    ≠ Some Dir →
  fs_read_zip (fs w) (cwd w) zipout = Ok ms0 →
  extract_member outDir zipout member w =
  (Ok tt,
   set_fs (<[resolve (cwd w) outDir ++ ["tiger"; (path_split member.1).2] :=
              File (Raw member.2)]> (fs w)) w).
Proof.
  intros Hn Htiger Hp Hzip.
  unfold extract_member, zf_open, ZipFile, mbind, M_bind, mret, M_ret.
  rewrite Hzip. unfold write_file, lift_fs.
  rewrite fs_write_writable by by apply writable_in_tiger.
  by rewrite resolve_dest_plain.
Qed.

Lemma extracted_cons (m : string * string) (ms : list (string * string))
    (name : string) :
  extracted (m :: ms) name =
  match extracted ms name with
  | Some d => Some d
  | None => if decide ((path_split m.1).2 = name) then Some m.2 else None
  end.
Proof.
  unfold extracted. destruct (decide ((path_split m.1).2 = name)) as [Heq|Hne].
  - rewrite filter_cons_True by done. rewrite last_cons. by destruct (last _).
  - rewrite filter_cons_False by done. by destruct (last _).
Qed.

Lemma extracted_none (ms : list (string * string)) (name : string) :
  Forall (λ m, (path_split m.1).2 ≠ name) ms → extracted ms name = None.
Proof.
  induction 1 as [|m ms Hm _ IH]; [done|].
  rewrite extracted_cons, IH. by rewrite decide_False.
Qed.

Lemma tiger_child_inj (root : list string) (a b : string) :
  root ++ ["tiger"; a] = root ++ ["tiger"; b] → a = b.
Proof. intros H%app_inv_head. by injection H. Qed.

Lemma for_each_extract_ok (outDir zipout zipname : string)
    (ms0 ms : list (string * string)) :
  Forall (λ m, plain_name (path_split m.1).2 ∧ (path_split m.1).2 ≠ zipname) ms →
  ∀ w,
    fs_node (fs w) (resolve (cwd w) outDir ++ ["tiger"]) = Some Dir →
    resolve (cwd w) zipout = resolve (cwd w) outDir ++ ["tiger"; zipname] →
    fs_read_zip (fs w) (cwd w) zipout = Ok ms0 →
    (∀ name, fs_node (fs w) (resolve (cwd w) outDir ++ ["tiger"; name])
             ≠ Some Dir) →
    ∃ f,
      for_each ms (extract_member outDir zipout) w = (Ok tt, set_fs f w) ∧
      (∀ name,
         fs_node f (resolve (cwd w) outDir ++ ["tiger"; name]) =
         match extracted ms name with
         | Some d => Some (File (Raw d))
         | None => fs_node (fs w) (resolve (cwd w) outDir ++ ["tiger"; name])
         end) ∧
      (∀ q, (∀ name, q ≠ resolve (cwd w) outDir ++ ["tiger"; name]) →
            fs_node f q = fs_node (fs w) q).
Proof.
  induction 1 as [|m ms [Hplain Hzn] _ IH]; intros w Htiger Hzp Hzip Hnodir.
  - exists (fs w). split; [by destruct w|]. by split.
  - simpl. unfold mbind, M_bind.
    rewrite (extract_member_ok outDir zipout m ms0 w) by done.
    set (root := resolve (cwd w) outDir) in *.
    set (p := root ++ ["tiger"; (path_split m.1).2]).
    set (w1 := set_fs (<[p := File (Raw m.2)]> (fs w)) w).
    assert (∀ q, q ≠ p → fs_node (fs w1) q = fs_node (fs w) q) as Hother.
    { intros q Hq. destruct q as [|x q]; [done|]. simpl.
      by rewrite lookup_insert_ne. }
    assert (fs_node (fs w1) p = Some (File (Raw m.2))) as Hat.
    { subst p. rewrite fs_node_lookup by by destruct root.
      simpl. by rewrite lookup_insert_eq. }
    destruct (IH w1) as (f & Hrun & Hin & Hout).
    + change (cwd w1) with (cwd w). fold root. rewrite <- Htiger.
      apply Hother. subst p.
      intros Heq. apply (f_equal length) in Heq.
      rewrite !length_app in Heq. simpl in Heq. lia.
    + done.
    + unfold fs_read_zip in *. change (cwd w1) with (cwd w).
      rewrite Hzp in *. rewrite Hother; [done|].
      subst p. intros Heq%tiger_child_inj. by apply Hzn.
    + intros name. change (cwd w1) with (cwd w). fold root.
      destruct (decide (name = (path_split m.1).2)) as [->|Hne].
      * fold p. by rewrite Hat.
      * rewrite Hother; [apply Hnodir|].
        subst p. by intros Heq%tiger_child_inj.
    + exists f. split; [exact Hrun|].
      change (cwd w1) with (cwd w) in Hin, Hout. fold root in Hin, Hout.
      split.
      * intros name. rewrite Hin, extracted_cons.
        destruct (extracted ms name); [done|].
        destruct (decide ((path_split m.1).2 = name)) as [<-|Hne].
        -- fold p. exact Hat.
        -- apply Hother. subst p. by intros Heq%tiger_child_inj.
      * intros q Hq. rewrite Hout by done. apply Hother, Hq.
Qed.

Lemma retrieve_first_try (url path : string) (d : fdata) (w : world) :
  net w (net_calls w) url = Fetched d →
  writable (fs w) (cwd w) path →
  retrieve url path w =
  (Ok tt,
   set_fs (<[resolve (cwd w) path := File d]> (fs w))
     (count_call (add_event (Urlretrieve url path)
        (add_event (Print ("download attempt " +:+ pretty 0)) w)))).
Proof.
  intros Hnet Hw. unfold retrieve.
  change (seq 0 50) with (0 :: seq 1 49). rewrite retrieve_from_step.
  by rewrite (urlretrieve_fetched url path _ d).
Qed.

Lemma fipsCodes_zip_plain :
  Forall (λ kv, plain_name (kv.1 +:+ ".zip")) fipsCodes.
Proof. repeat (constructor; [by repeat split|]). constructor. Qed.

(** X7: for a state of the table, when the server delivers an archive at
    the first attempt, the tiger directory is there and empty, and every
    member of the archive has a file name proper as base name, other than
    the name of the archive itself: the shapes are fetched with one
    transfer; afterwards the tiger directory holds, under each base name,
    the contents of the last member with that base name, and nothing else;
    the archive is gone; the rest of the file system is as it was. *)
Theorem download_tiger_unpacks (outDir state fips : string)
    (ms : list (string * string)) (w : world) :
  dict_get state fipsCodes = Some fips →
  net w (net_calls w) (tiger_url fips) = Fetched (ZipData ms) →
  fs_node (fs w) (resolve (cwd w) outDir ++ ["tiger"]) = Some Dir →
  (∀ name, fs_node (fs w) (resolve (cwd w) outDir ++ ["tiger"; name]) = None) →
  Forall (λ m, plain_name (path_split m.1).2 ∧
               (path_split m.1).2 ≠ state +:+ ".zip") ms →
  (download_tiger outDir state w).1 = Ok tt ∧
  log (download_tiger outDir state w).2 =
    log w ++
    [Print ("processing " +:+ state); Print "Downloading TIGER"] ++
    last_attempt (tiger_url fips)
      (path_join outDir ["tiger"; state +:+ ".zip"]) 0 ++
    [Print "Done with TIGER"] ∧
  (∀ name,
     fs_node (fs (download_tiger outDir state w).2)
       (resolve (cwd w) outDir ++ ["tiger"; name]) =
     (λ d, File (Raw d)) <$> extracted ms name) ∧
  fs_node (fs (download_tiger outDir state w).2)
    (resolve (cwd w) (path_join outDir ["tiger"; state +:+ ".zip"])) = None ∧
  (∀ q, (∀ name, q ≠ resolve (cwd w) outDir ++ ["tiger"; name]) →
        fs_node (fs (download_tiger outDir state w).2) q = fs_node (fs w) q).
Proof.
  intros Hfips Hnet Htiger Hempty Hms.
  set (root := resolve (cwd w) outDir) in *.
  set (zipname := state +:+ ".zip") in *.
  set (zipout := path_join outDir ["tiger"; zipname]).
  assert (plain_name zipname) as Hzn.
  { apply dict_get_elem_of in Hfips.
    pose proof fipsCodes_zip_plain as Hall. rewrite Forall_forall in Hall.
    apply (Hall _ Hfips). }
  assert (resolve (cwd w) zipout = root ++ ["tiger"; zipname]) as Hzp
    by by apply resolve_dest_plain.
  set (wb := add_event (Print "Downloading TIGER")
               (add_event (Print ("processing " +:+ state)) w)).
  assert (download_tiger outDir state w =
          (retrieve (tiger_url fips) zipout;;
           extract outDir zipout;;
           remove zipout;;
           print "Done with TIGER") wb) as Hrun.
  { unfold download_tiger, mbind, M_bind, print. cbn beta iota.
    by rewrite Hfips. }
  rewrite Hrun. unfold mbind, M_bind.
  rewrite (retrieve_first_try _ _ (ZipData ms)); [|done|].
  2:{ apply writable_in_tiger; [done | done |]. simpl. fold root.
      by rewrite Hempty. }
  set (wc := set_fs _ _). simpl in wc.
  assert (∀ q, q ≠ root ++ ["tiger"; zipname] →
               fs_node (fs wc) q = fs_node (fs w) q) as Hother.
  { intros q Hq. destruct q as [|x q]; [done|]. subst wc. simpl.
    fold zipout. rewrite Hzp. by rewrite lookup_insert_ne. }
  assert (fs_node (fs wc) (root ++ ["tiger"; zipname]) =
          Some (File (ZipData ms))) as Hat.
  { rewrite fs_node_lookup by by destruct root. subst wc. simpl.
    fold zipout. rewrite Hzp. by rewrite lookup_insert_eq. }
  rewrite extract_run.
  assert (fs_read_zip (fs wc) (cwd wc) zipout = Ok ms) as Hzip.
  { unfold fs_read_zip. change (cwd wc) with (cwd w). by rewrite Hzp, Hat. }
  rewrite Hzip.
  destruct (for_each_extract_ok outDir zipout zipname ms ms Hms wc)
    as (f & Hex & Hin & Hout).
  { change (cwd wc) with (cwd w). fold root. rewrite Hother; [done|].
    intros Heq. apply (f_equal length) in Heq.
    rewrite !length_app in Heq. simpl in Heq. lia. }
  { done. }
  { done. }
  { intros name. change (cwd wc) with (cwd w). fold root.
    destruct (decide (name = zipname)) as [->|Hne].
    - by rewrite Hat.
    - rewrite Hother; [by rewrite Hempty|]. by intros Heq%tiger_child_inj. }
  rewrite Hex. change (cwd wc) with (cwd w) in Hin, Hout.
  fold root in Hin, Hout.
  assert (Forall (λ m, (path_split m.1).2 ≠ zipname) ms) as Hnz.
  { eapply Forall_impl; [exact Hms|]. by intros m [_ ?]. }
  assert (fs_node f (root ++ ["tiger"; zipname]) = Some (File (ZipData ms)))
    as Hzipf.
  { by rewrite Hin, extracted_none, Hat. }
  unfold remove, lift_fs, fs_remove. simpl.
  change (cwd wc) with (cwd w). rewrite Hzp, Hzipf. simpl.
  split; [done|]. split; [by rewrite <- !app_assoc|].
  assert (∀ q, q ≠ root ++ ["tiger"; zipname] →
               fs_node (delete (root ++ ["tiger"; zipname]) f) q = fs_node f q)
    as Hdel.
  { intros q Hq. destruct q as [|x q]; [done|]. simpl.
    by rewrite lookup_delete_ne. }
  assert (fs_node (delete (root ++ ["tiger"; zipname]) f)
            (root ++ ["tiger"; zipname]) = None) as Hgone.
  { rewrite fs_node_lookup by by destruct root. by rewrite lookup_delete_eq. }
  split; [|split].
  - intros name. destruct (decide (name = zipname)) as [->|Hne].
    + by rewrite Hgone, extracted_none.
    + rewrite Hdel by by intros Heq%tiger_child_inj. rewrite Hin.
      destruct (extracted ms name); [done|]. simpl.
      rewrite Hother by by intros Heq%tiger_child_inj. apply Hempty.
  - exact Hgone.
  - intros q Hq. rewrite Hdel by apply Hq. rewrite Hout by done.
    apply Hother, Hq.
Qed.

Lemma download_tiger_unpacks_witness :
  (download_tiger "out" "CA" (prepared (flaky 0 shapefiles))).1 = Ok tt ∧
  log (download_tiger "out" "CA" (prepared (flaky 0 shapefiles))).2 =
    log (prepared (flaky 0 shapefiles)) ++
    [Print ("processing " +:+ "CA"); Print "Downloading TIGER"] ++
    last_attempt (tiger_url "06")
      (path_join "out" ["tiger"; "CA" +:+ ".zip"]) 0 ++
    [Print "Done with TIGER"] ∧
  (∀ name,
     fs_node (fs (download_tiger "out" "CA" (prepared (flaky 0 shapefiles))).2)
       (resolve (cwd (prepared (flaky 0 shapefiles))) "out" ++ ["tiger"; name]) =
     (λ d, File (Raw d)) <$>
       extracted [ ("tl_2010_tabblock10.shp", "shapes");
                   ("tl_2010_tabblock10.dbf", "attributes") ] name) ∧
  fs_node (fs (download_tiger "out" "CA" (prepared (flaky 0 shapefiles))).2)
    (resolve (cwd (prepared (flaky 0 shapefiles)))
       (path_join "out" ["tiger"; "CA" +:+ ".zip"])) = None ∧
  (∀ q, (∀ name, q ≠ resolve (cwd (prepared (flaky 0 shapefiles))) "out" ++
                       ["tiger"; name]) →
        fs_node (fs (download_tiger "out" "CA" (prepared (flaky 0 shapefiles))).2)
          q = fs_node (fs (prepared (flaky 0 shapefiles))) q).
Proof.
  apply (download_tiger_unpacks "out" "CA" "06"
           [ ("tl_2010_tabblock10.shp", "shapes");
             ("tl_2010_tabblock10.dbf", "attributes") ]
           (prepared (flaky 0 shapefiles))).
  - reflexivity.
  - reflexivity.
  - reflexivity.
  - intros name.
    change ((<[["out"; "workforce"] := Dir]>
               (<[["out"; "jobs"] := Dir]>
                  (<[["out"; "tiger"] := Dir]>
                     (<[["out"] := Dir]> (∅ : gmap (list string) node)))))
              !! ["out"; "tiger"; name] = None).
    rewrite !lookup_insert_ne by done. apply lookup_empty.
  - repeat constructor; done.
Defined.

(** ** How many transfers a run can make *)

Lemma within_ret {A} (a : A) : within 0 (mret a : M A).
Proof. intros w. exists []. by rewrite app_nil_r. Qed.

Lemma within_raise {A} (e : exn) : within 0 (@raise A e).
Proof. intros w. exists []. by rewrite app_nil_r. Qed.

Lemma within_bind {A B} (n k : nat) (m : M A) (f : A → M B) :
  within n m → (∀ a, within k (f a)) → within (n + k) (m ≫= f).
Proof.
  intros Hm Hf w. unfold mbind, M_bind.
  destruct (Hm w) as (evs1 & Hl1 & Hn1).
  destruct (m w) as [[a|e] w1]; simpl in *.
  - destruct (Hf a w1) as (evs2 & Hl2 & Hn2).
    exists (evs1 ++ evs2). rewrite Hl2, Hl1, app_assoc. split; [done|].
    rewrite transfers_app, length_app. lia.
  - exists evs1. split; [done | lia].
Qed.

Lemma within_offline {A} (m : M A) : inv offline m → within 0 m.
Proof.
  intros Hm w. destruct (Hm w) as (_ & _ & _ & evs & Hl & Ht).
  exists evs. split; [done|]. by rewrite Ht.
Qed.

Lemma within_print (s : string) : within 0 (print s).
Proof. apply within_offline. intros w. apply offline_print. Qed.

Lemma offline_set_fs (w : world) (f : gmap (list string) node) :
  offline w (set_fs f w).
Proof. unfold offline. repeat split. exists []. by rewrite app_nil_r. Qed.

Lemma within_extract (outDir zipout : string) : within 0 (extract outDir zipout).
Proof.
  apply within_offline. apply (inv_extract offline).
  intros w path d f _. apply offline_set_fs.
Qed.

Lemma within_remove (path : string) : within 0 (remove path).
Proof.
  apply within_offline. apply (inv_remove offline).
  intros w p f _. apply offline_set_fs.
Qed.

Lemma within_retrieve (url path : string) : within 50 (retrieve url path).
Proof.
  intros w. destruct (retrieve_transfers url path w) as (evs & k & _ & Hl & Ht & Hk & _).
  exists evs. split; [done|]. rewrite Ht, length_replicate. lia.
Qed.

Lemma within_select_year (state : string) : within 0 (select_year state).
Proof.
  unfold select_year. destruct (_ || _); [apply within_ret|].
  destruct (_ || _); [|apply within_ret].
  apply (within_bind 0 0); [apply within_print | intros _; apply within_ret].
Qed.

Lemma within_download_lodes (outDir state : string) :
  within 100 (download_lodes outDir state).
Proof.
  unfold download_lodes.
  apply (within_bind 0 100); [apply within_print|]. intros _.
  apply (within_bind 0 100); [apply within_select_year|]. intros year.
  destruct (bool_decide (year ≠ 0)).
  - apply (within_bind 0 100); [apply within_print|]. intros _.
    apply (within_bind 50 50); [apply within_retrieve|]. intros _.
    apply within_retrieve.
  - intros w. exists []. rewrite app_nil_r. split; [done | simpl; lia].
Qed.

Lemma within_download_tiger (outDir state : string) :
  within 50 (download_tiger outDir state).
Proof.
  unfold download_tiger.
  apply (within_bind 0 50); [apply within_print|]. intros _.
  apply (within_bind 0 50); [apply within_print|]. intros _.
  apply (within_bind 0 50).
  { destruct (dict_get _ _); [apply within_ret | apply within_raise]. }
  intros fips.
  apply (within_bind 50 0); [apply within_retrieve|]. intros _.
  apply (within_bind 0 0); [apply within_extract|]. intros _.
  apply (within_bind 0 0); [apply within_remove|]. intros _.
  apply within_print.
Qed.

Lemma within_process_state (outDir state : string) :
  within 150 (process_state outDir state).
Proof.
  unfold process_state.
  apply (within_bind 50 100); [apply within_download_tiger|]. intros _.
  apply (within_bind 100 0); [apply within_download_lodes|]. intros _.
  apply within_print.
Qed.

Lemma within_for_each (outDir : string) (states : list string) :
  within (150 * length states) (for_each states (process_state outDir)).
Proof.
  induction states as [|state states IH].
  - apply within_ret.
  - replace (150 * length (state :: states))
      with (150 + 150 * length states) by (simpl; lia).
    apply within_bind; [apply within_process_state | intros _; apply IH].
Qed.

(** X8: a run makes at most 150 transfers for each state of its work
    list (three retrievals of at most 50 attempts each), whatever the
    servers and the file system do, and none before the loop over the
    states. *)
Theorem transfer_budget (argv : list string) (w : world) :
  ∃ evs,
    log (main argv w).2 = log w ++ evs ∧
    length (transfers evs) ≤ 150 * length (work_list argv).
Proof.
  destruct (main_log argv w) as (evs0 & w1 & Hl1 & _ & Ht0 & [Hmain|[e Hmain]]);
    rewrite Hmain.
  - destruct (within_for_each (default "" (argv !! 1)) (work_list argv) w1)
      as (evs & Hl & Hn).
    exists (evs0 ++ evs). rewrite Hl, Hl1, app_assoc. split; [done|].
    by rewrite transfers_app, Ht0.
  - exists evs0. simpl. split; [done|]. rewrite Ht0. simpl. lia.
Qed.

(** ** What a run leaves in place *)

Lemma main_steps (argv : list string) : inv steps (main argv).
Proof.
  intros w. rewrite main_run.
  destruct (setup_run argv w) as (evs0 & _ & _ & Hsetup). rewrite Hsetup.
  destruct (argv !! 1) as [outDir|]; simpl; [|reflexivity].
  set (w0 := World (fs w) (cwd w) (net w) (net_calls w) (log w ++ evs0)).
  destruct (make_directories_world outDir w0) as (f & Hw1 & Hk).
  assert (steps w (set_fs f w0)) as Hs.
  { unfold steps. simpl. repeat split; [lia | done]. }
  destruct (make_directories outDir w0) as [[[]|e] w1];
    simpl in Hw1; subst w1; simpl; [|exact Hs].
  etrans; [exact Hs|]. apply (inv_for_each steps).
  intros state. apply process_state_steps.
Qed.

(** X9: a directory that exists when a run starts is still a directory
    when the run ends, however it ends: no step of the script removes a
    directory or puts a file in its place; the working directory is the
    same. *)
Theorem run_keeps_directories (argv : list string) (w : world)
    (p : list string) :
  fs_node (fs w) p = Some Dir →
  fs_node (fs (main argv w).2) p = Some Dir ∧ cwd (main argv w).2 = cwd w.
Proof.
  intros Hp. destruct (main_steps argv w) as (Hcwd & _ & _ & Hdirs).
  split; [by apply Hdirs | done].
Qed.

Lemma run_keeps_directories_witness :
  fs_node
    (fs (main ["downloadData.py"; "data"; "CA"]
           (prepared (flaky 0 shapefiles))).2) ["out"; "tiger"] = Some Dir ∧
  cwd (main ["downloadData.py"; "data"; "CA"]
         (prepared (flaky 0 shapefiles))).2 =
  cwd (prepared (flaky 0 shapefiles)).
Proof.
  apply (run_keeps_directories ["downloadData.py"; "data"; "CA"]
           (prepared (flaky 0 shapefiles)) ["out"; "tiger"]).
  reflexivity.
Defined.

(** ** The substitute values of randomizeCsv.py *)

Import RandomizeCsv.

Lemma count_from_S (ct : Z) (n : nat) :
  count_from ct (S n) = (ct + 1)%Z :: count_from (ct + 1) n.
Proof.
  unfold count_from.
  rewrite <- cons_seq, fmap_cons, <- fmap_S_seq, <- list_fmap_compose.
  replace (ct + Z.of_nat 1)%Z with (ct + 1)%Z by lia. f_equal.
  apply list_fmap_ext. intros i x _. simpl. lia.
Qed.


Lemma count_from_lookup (ct : Z) (n i : nat) (v : Z) :
  count_from ct n !! i = Some v → v = (ct + Z.of_nat i + 1)%Z.
Proof.
  unfold count_from. rewrite list_lookup_fmap.
  destruct (seq 0 n !! i) as [j|] eqn:E; [|done].
  apply lookup_seq in E as [-> _]. simpl. intros [= <-]. lia.
Qed.



(** X10: [n] successive calls of nextVal, from the counter [ct], return
    [ct + 1, ..., ct + n], the [i]-th call (from 0) one more than the one
    before it, and leave the counter at [ct + n]. *)
Theorem nextVal_calls (n : nat) (ct : Z) :
  calls n ct = (count_from ct n, (ct + Z.of_nat n)%Z) ∧
  (∀ (i : nat) (v : Z), (calls n ct).1 !! i = Some v →
                        v = (ct + Z.of_nat i + 1)%Z).
Proof.
  assert (calls n ct = (count_from ct n, (ct + Z.of_nat n)%Z)) as Hc.
  { revert ct. induction n as [|n IH]; intros ct.
    - simpl. by rewrite Z.add_0_r.
    - rewrite count_from_S. cbn [calls nextVal]. rewrite IH. f_equal. lia. }
  rewrite Hc. simpl. split; [done|]. apply count_from_lookup.
Qed.














(** ** The pattern of convert.py *)

Import Convert.

Lemma str_app_eq_nil (s1 s2 : string) : s1 +:+ s2 = "" → s1 = "" ∧ s2 = "".
Proof. destruct s1; [done | discriminate]. Qed.

Lemma nullable_matches (r : regex) : nullable r = true ↔ matches r "".
Proof.
  split.
  - induction r as [| |p|r1 IH1 r2 IH2|r1 IH1 r2 IH2|r IH]; simpl; intros H;
      try done.
    + constructor.
    + apply andb_true_iff in H as [H1 H2].
      apply (matches_Cat _ _ "" ""); auto.
    + apply orb_true_iff in H as [H|H];
        [apply matches_Alt_l | apply matches_Alt_r]; auto.
    + constructor.
  - intros H. remember EmptyString as s eqn:Hs.
    induction H as [|p c Hp|r1 r2 s1 s2 H1 IH1 H2 IH2|r1 r2 s H IH
                   |r1 r2 s H IH|r|r s1 s2 H1 IH1 H2 IH2]; simpl; try done.
    + apply str_app_eq_nil in Hs as [-> ->]. by rewrite IH1, IH2.
    + by rewrite IH.
    + rewrite IH by done. apply orb_true_r.
Qed.

Lemma matches_deriv_1 (r : regex) (s' : string) :
  matches r s' → ∀ c s, s' = String c s → matches (deriv c r) s.
Proof.
  induction 1 as [|p c0 Hp|r1 r2 s1 s2 H1 IH1 H2 IH2|r1 r2 s0 H IH
                 |r1 r2 s0 H IH|r|r s1 s2 H1 IH1 H2 IH2];
    intros c s Heq; simpl.
  - discriminate.
  - injection Heq as -> <-. rewrite Hp. constructor.
  - destruct s1 as [|c1 s1]; simpl in Heq.
    + apply nullable_matches in H1. rewrite H1.
      apply matches_Alt_r. by apply IH2.
    + injection Heq as -> <-.
      destruct (nullable r1); [apply matches_Alt_l|];
        (apply matches_Cat; [by apply IH1 | done]).
  - apply matches_Alt_l. by apply IH.
  - apply matches_Alt_r. by apply IH.
  - discriminate.
  - destruct s1 as [|c1 s1]; simpl in Heq.
    + by apply IH2.
    + injection Heq as -> <-. apply matches_Cat; [by apply IH1 | done].
Qed.

Lemma matches_deriv_2 (r : regex) :
  ∀ c s, matches (deriv c r) s → matches r (String c s).
Proof.
  induction r as [| |p|r1 IH1 r2 IH2|r1 IH1 r2 IH2|r IH]; intros c s H;
    simpl in H.
  - inversion H.
  - inversion H.
  - destruct (p c) eqn:Hp; inversion H; subst. by constructor.
  - destruct (nullable r1) eqn:Hn.
    + inversion H as [| | |? ? ? H'|? ? ? H'| |]; subst.
      * inversion H' as [| |? ? s1 s2 Ha Hb| | | |]; subst.
        apply (matches_Cat r1 r2 (String c s1) s2); auto.
      * apply (matches_Cat r1 r2 "" (String c s));
          [by apply nullable_matches | auto].
    + inversion H as [| |? ? s1 s2 Ha Hb| | | |]; subst.
      apply (matches_Cat r1 r2 (String c s1) s2); auto.
  - inversion H; subst; [apply matches_Alt_l | apply matches_Alt_r]; auto.
  - inversion H as [| |? ? s1 s2 Ha Hb| | | |]; subst.
    apply (matches_Star_app r (String c s1) s2); auto.
Qed.

(** the derivative-based matcher decides [matches] *)
Lemma accepts_matches (s : string) : ∀ r, accepts r s = true ↔ matches r s.
Proof.
  induction s as [|c s IH]; intros r; simpl.
  - apply nullable_matches.
  - rewrite IH. split; [apply matches_deriv_2|].
    intros H. by eapply matches_deriv_1.
Qed.

Lemma matches_Eps_inv (s : string) : matches Eps s ↔ s = "".
Proof. split; [by inversion 1 | intros ->; constructor]. Qed.

Lemma matches_Cls_inv (p : ascii → bool) (s : string) :
  matches (Cls p) s ↔ ∃ c, s = String c "" ∧ p c = true.
Proof.
  split.
  - inversion 1; subst. by eexists.
  - intros (c & -> & Hp). by constructor.
Qed.

Lemma matches_Cat_inv (r1 r2 : regex) (s : string) :
  matches (Cat r1 r2) s ↔
  ∃ s1 s2, s = s1 +:+ s2 ∧ matches r1 s1 ∧ matches r2 s2.
Proof.
  split.
  - inversion 1; subst. by eexists _, _.
  - intros (s1 & s2 & -> & H1 & H2). by constructor.
Qed.

Lemma matches_Alt_inv (r1 r2 : regex) (s : string) :
  matches (Alt r1 r2) s ↔ matches r1 s ∨ matches r2 s.
Proof.
  split.
  - inversion 1; subst; auto.
  - intros [H|H]; [by apply matches_Alt_l | by apply matches_Alt_r].
Qed.

Lemma matches_Opt (r : regex) (s : string) :
  matches (Opt r) s ↔ s = "" ∨ matches r s.
Proof.
  unfold Opt. rewrite matches_Alt_inv, matches_Eps_inv. tauto.
Qed.

Lemma matches_Chr (c : ascii) (s : string) :
  matches (Chr c) s ↔ s = String c "".
Proof.
  unfold Chr. rewrite matches_Cls_inv. split.
  - intros (x & -> & Hx). by apply bool_decide_eq_true in Hx as ->.
  - intros ->. exists c. split; [done | by apply bool_decide_eq_true].
Qed.

Lemma matches_Lit (u s : string) : matches (Lit u) s ↔ s = u.
Proof.
  revert s. induction u as [|c u IH]; intros s; simpl.
  - apply matches_Eps_inv.
  - rewrite matches_Cat_inv. split.
    + intros (s1 & s2 & -> & H1%matches_Chr & H2%IH). by subst.
    + intros ->. exists (String c ""), u. split; [done|].
      split; [by apply matches_Chr | by apply IH].
Qed.

Lemma matches_Star_Cls (p : ascii → bool) (s : string) :
  matches (Star (Cls p)) s ↔ str_forall p s = true.
Proof.
  split.
  - intros H. remember (Star (Cls p)) as r eqn:Hr.
    induction H as [| | | | |r0|r0 s1 s2 H1 _ H2 IH2]; try done.
    injection Hr as ->. apply matches_Cls_inv in H1 as (c & -> & Hc).
    simpl. by rewrite Hc, IH2.
  - induction s as [|c s IH]; simpl; intros H; [constructor|].
    apply andb_true_iff in H as [Hc Hs].
    apply (matches_Star_app _ (String c "") s); [by constructor | auto].
Qed.

Lemma matches_Plus_Cls (p : ascii → bool) (s : string) :
  matches (Plus (Cls p)) s ↔ s ≠ "" ∧ str_forall p s = true.
Proof.
  unfold Plus. rewrite matches_Cat_inv. split.
  - intros (s1 & s2 & -> & (c & -> & Hc)%matches_Cls_inv & H2%matches_Star_Cls).
    simpl. by rewrite Hc, H2.
  - intros [Hne H]. destruct s as [|c s]; [done|]. simpl in H.
    apply andb_true_iff in H as [Hc Hs].
    exists (String c ""), s. split; [done|].
    split; [by apply matches_Cls_inv; eexists | by apply matches_Star_Cls].
Qed.

Lemma matches_units (s : string) : matches units s ↔ s ∈ unit_names.
Proof.
  unfold units, unit_names.
  rewrite !matches_Alt_inv, !matches_Lit, !elem_of_cons, elem_of_nil. tauto.
Qed.

(** the strings the pattern of line 6 matches from end to end *)
Lemma pattern_language (s : string) :
  matches pattern s ↔
  ∃ (d : ascii) (body suffix : string),
    s = String d body +:+ suffix ∧
    is_digit d = true ∧ body ≠ "" ∧ str_forall is_dot_digit body = true ∧
    (suffix = "" ∨ ∃ u, u ∈ unit_names ∧ (suffix = u ∨ suffix = " " +:+ u)).
Proof.
  unfold pattern. rewrite matches_Cat_inv. split.
  - intros (s12 & s3 & -> & H12 & H3).
    apply matches_Cat_inv in H12 as (s1 & s2 & -> & H1 & H2).
    apply matches_Cls_inv in H1 as (d & -> & Hd).
    apply matches_Plus_Cls in H2 as [Hne Hbody].
    exists d, s2, s3. split; [done|]. split; [done|]. split; [done|].
    split; [done|].
    apply matches_Opt in H3 as [->|H3]; [by left | right].
    apply matches_Cat_inv in H3 as (sp & u & -> & Hsp & Hu%matches_units).
    exists u. split; [done|].
    apply matches_Opt in Hsp as [-> | ->%matches_Chr]; [by left | by right].
  - intros (d & body & suffix & -> & Hd & Hne & Hbody & Hsuf).
    exists (String d body), suffix. split; [done|]. split.
    + apply matches_Cat_inv. exists (String d ""), body. split; [done|].
      split; [by apply matches_Cls_inv; eexists | by apply matches_Plus_Cls].
    + apply matches_Opt. destruct Hsuf as [->|(u & Hu & Hs)]; [by left | right].
      apply matches_Cat_inv. destruct Hs as [->| ->].
      * exists "", u. split; [done|]. split; [apply matches_Opt; by left|].
        by apply matches_units.
      * exists " ", u. split; [done|].
        split; [apply matches_Opt; right; by apply matches_Chr|].
        by apply matches_units.
Qed.

Lemma chomp_app_newline (s : string) :
  chomp (s +:+ String newline "") = Some s.
Proof.
  induction s as [|c s IH]; [done|].
  change (String c s +:+ String newline "")
    with (String c (s +:+ String newline "")).
  destruct (s +:+ String newline "") as [|x t] eqn:E.
  - by apply str_app_eq_nil in E as [_ ?].
  - change (chomp (String c (String x t)))
      with (String c <$> chomp (String x t)).
    by rewrite IH.
Qed.

Lemma chomp_inv (s : string) : ∀ s',
  chomp s = Some s' → s = s' +:+ String newline "".
Proof.
  induction s as [|c s IH]; intros s'; [done|].
  destruct s as [|c' s].
  - simpl. destruct (bool_decide (c = newline)) eqn:E; [|done].
    apply bool_decide_eq_true in E as ->. by intros [= <-].
  - change (chomp (String c (String c' s)))
      with (String c <$> chomp (String c' s)).
    destruct (chomp (String c' s)) as [t|]; [|done].
    simpl. intros [= <-]. by rewrite (IH t).
Qed.

Lemma chomp_Some (s s' : string) :
  chomp s = Some s' ↔ s = s' +:+ String newline "".
Proof. split; [apply chomp_inv | intros ->; apply chomp_app_newline]. Qed.

(** X14: the numeric equivalents that the pattern of line 6 accepts are
    exactly: a digit, then one or more digits or dots, then nothing or a unit
    (kmh, km/h, kmph, kph, mph, knots) with at most one space before it, then
    the end of the string or a single newline that ends it. *)
Theorem regex_match_language (s : string) :
  regex_match s = true ↔
  ∃ (d : ascii) (body suffix nl : string),
    s = String d body +:+ suffix +:+ nl ∧
    is_digit d = true ∧ body ≠ "" ∧ str_forall is_dot_digit body = true ∧
    (suffix = "" ∨ ∃ u, u ∈ unit_names ∧ (suffix = u ∨ suffix = " " +:+ u)) ∧
    (nl = "" ∨ nl = String newline "").
Proof.
  unfold regex_match. rewrite orb_true_iff, accepts_matches, pattern_language.
  split.
  - intros [(d & body & suffix & -> & Hd & Hne & Hb & Hs)|H].
    + exists d, body, suffix, "". rewrite str_app_nil_r. by repeat split; auto.
    + destruct (chomp s) as [s'|] eqn:E; [|done].
      apply accepts_matches, pattern_language in H
        as (d & body & suffix & -> & Hd & Hne & Hb & Hs).
      apply chomp_Some in E as ->.
      exists d, body, suffix, (String newline "").
      rewrite <- str_app_assoc. by repeat split; auto.
  - intros (d & body & suffix & nl & -> & Hd & Hne & Hb & Hs & [->| ->]).
    + left. exists d, body, suffix. by rewrite str_app_nil_r.
    + right. rewrite <- str_app_assoc.
      assert (chomp ((String d body +:+ suffix) +:+ String newline "") =
              Some (String d body +:+ suffix)) as -> by by apply chomp_Some.
      apply accepts_matches, pattern_language. by exists d, body, suffix.
Qed.

Lemma pattern_second_char (s : string) :
  matches pattern s →
  ∃ d c rest, s = String d (String c rest) ∧ is_dot_digit c = true.
Proof.
  intros (d & body & suffix & -> & _ & Hne & Hb & _)%pattern_language.
  destruct body as [|c body]; [done|]. simpl in Hb.
  apply andb_true_iff in Hb as [Hc _]. by exists d, c, (body +:+ suffix).
Qed.

Lemma regex_match_second_char (s : string) :
  regex_match s = true →
  ∃ d c rest, s = String d (String c rest) ∧ is_dot_digit c = true.
Proof.
  unfold regex_match. intros [H|H]%orb_true_iff.
  - by apply pattern_second_char, accepts_matches.
  - destruct (chomp s) as [s'|] eqn:E; [|done].
    apply accepts_matches, pattern_second_char in H as (d & c & rest & -> & Hc).
    apply chomp_Some in E as ->. by exists d, c, (rest +:+ String newline "").
Qed.

(** X15: a numeric equivalent whose first character is followed by nothing,
    or by a character that is neither a digit nor a dot, never matches: a
    speed of one digit, with or without a unit, leaves the output as it
    is. *)
Theorem one_digit_speed_dropped (output : list (string * string))
    (value : string) (d : ascii) (rest : string) :
  (∀ c rest', rest = String c rest' → is_dot_digit c = false) →
  regex_match (String d rest) = false ∧
  convert_line output (mk_line value (String d rest)) = Ok output.
Proof.
  intros Hrest.
  assert (regex_match (String d rest) = false) as Hno.
  { apply not_true_is_false. intros H.
    apply regex_match_second_char in H as (d' & c & rest' & Heq & Hc).
    injection Heq as _ Heq. by rewrite (Hrest c _ Heq) in Hc. }
  split; [done|]. unfold convert_line, mk_line.
  cbn [dict_get]. rewrite decide_False by done. rewrite decide_True by done.
  by rewrite Hno.
Qed.

Lemma one_digit_speed_dropped_witness :
  regex_match "5 mph" = false ∧
  convert_line [("us:urban", "25 mph")] (mk_line "DE:walk" "5 mph") =
    Ok [("us:urban", "25 mph")].
Proof.
  apply (one_digit_speed_dropped [("us:urban", "25 mph")] "DE:walk" "5" " mph").
  intros c rest' [= <- _]. reflexivity.
Defined.

Lemma last_set_cons (k : string) (row : string * string)
    (rows : list (string * string)) :
  last_set k (row :: rows) =
  match last_set k rows with
  | Some v => Some v
  | None => if sets_key k row then Some row.2 else None
  end.
Proof.
  unfold last_set. destruct (sets_key k row) eqn:E.
  - rewrite filter_cons_True by done. rewrite last_cons.
    by destruct (last _).
  - rewrite filter_cons_False; [by destruct (last _)|]. by rewrite E.
Qed.

Lemma convert_from_last_wins (data : list (list (string * option string)))
    (rows : list (string * string)) :
  Forall2 (λ line row,
    dict_get "value" line = Some (Some row.1) ∧
    dict_get "numeric equivalent" line = Some (Some row.2)) data rows →
  ∀ output, ∃ out,
    convert_from output data = Ok out ∧
    ∀ k, dict_get k out =
         match last_set k rows with
         | Some v => Some v
         | None => dict_get k output
         end.
Proof.
  induction 1 as [|line row data rows [Hv Hn] _ IH]; intros output.
  - exists output. by split.
  - simpl. unfold convert_line. rewrite Hn, Hv.
    destruct (regex_match row.2) eqn:Hm.
    + destruct (IH (dict_set (lower row.1) row.2 output)) as (out & Hrun & Hout).
      exists out. split; [done|]. intros k. rewrite Hout, last_set_cons.
      destruct (last_set k rows); [done|].
      unfold sets_key. rewrite Hm, andb_true_r.
      destruct (decide (lower row.1 = k)) as [<-|Hne].
      * rewrite bool_decide_eq_true_2 by done. apply dict_get_set_eq.
      * rewrite bool_decide_eq_false_2 by done. by apply dict_get_set_ne.
    + destruct (IH output) as (out & Hrun & Hout).
      exists out. split; [done|]. intros k. rewrite Hout, last_set_cons.
      destruct (last_set k rows); [done|].
      unfold sets_key. by rewrite Hm, andb_false_r.
Qed.

(** X16: when every line has the two columns, the conversion returns a
    mapping in which the entry for a key is the numeric equivalent, as read,
    of the last line whose value is that key in lower case and whose numeric
    equivalent matches the pattern; a key with no such line has no entry. *)
Theorem convert_last_wins (data : list (list (string * option string)))
    (rows : list (string * string)) :
  Forall2 (λ line row,
    dict_get "value" line = Some (Some row.1) ∧
    dict_get "numeric equivalent" line = Some (Some row.2)) data rows →
  ∃ out, convert data = Ok out ∧ ∀ k, dict_get k out = last_set k rows.
Proof.
  intros H. destruct (convert_from_last_wins data rows H []) as (out & Hrun & Hout).
  exists out. split; [done|]. intros k. rewrite Hout.
  by destruct (last_set k rows).
Qed.

Lemma convert_last_wins_witness :
  ∃ out,
    convert [ mk_line "Urban" "50";
              [("numeric equivalent", Some "none"); ("value", Some "walk")];
              mk_line "URBAN" "30 mph" ] = Ok out ∧
    ∀ k, dict_get k out =
         last_set k [("Urban", "50"); ("walk", "none"); ("URBAN", "30 mph")].
Proof.
  apply (convert_last_wins
    [ mk_line "Urban" "50";
      [("numeric equivalent", Some "none"); ("value", Some "walk")];
      mk_line "URBAN" "30 mph" ]
    [("Urban", "50"); ("walk", "none"); ("URBAN", "30 mph")]).
  repeat constructor.
Defined.

Lemma lower_ascii_idemp (c : ascii) : lower_ascii (lower_ascii c) = lower_ascii c.
Proof. by destruct c as [[] [] [] [] [] [] [] []]. Qed.

Lemma lower_idemp (s : string) : lower (lower s) = lower s.
Proof.
  unfold lower. induction s as [|c s IH]; simpl; [done|].
  by rewrite lower_ascii_idemp, IH.
Qed.

Lemma convert_from_entries (data : list (list (string * option string))) :
  ∀ output out,
  convert_from output data = Ok out →
  ∀ k v, dict_get k out = Some v →
    dict_get k output = Some v ∨
    (regex_match v = true ∧
     ∃ line value, line ∈ data ∧
       dict_get "value" line = Some (Some value) ∧ lower value = k ∧
       dict_get "numeric equivalent" line = Some (Some v)).
Proof.
  induction data as [|line data IH]; intros output out Hrun k v Hk; simpl in Hrun.
  - injection Hrun as <-. by left.
  - destruct (convert_line output line) as [output'|e] eqn:Hline; [|done].
    destruct (IH output' out Hrun k v Hk) as [Hin|(Hm & l & value & Hl & Hv)].
    + unfold convert_line in Hline.
      destruct (dict_get "numeric equivalent" line) as [[ne|]|] eqn:Hne;
        try done.
      destruct (regex_match ne) eqn:Hm; [|injection Hline as <-; by left].
      destruct (dict_get "value" line) as [[value|]|] eqn:Hval; try done.
      injection Hline as <-.
      destruct (decide (lower value = k)) as [<-|Hkne].
      * rewrite dict_get_set_eq in Hin. injection Hin as ->.
        right. split; [done|]. exists line, value.
        split; [apply list_elem_of_here | done].
      * rewrite dict_get_set_ne in Hin by done. by left.
    + right. split; [done|]. exists l, value.
      split; [by apply list_elem_of_further | done].
Qed.

(** X17: whatever the lines hold, when the conversion returns a mapping,
    each of its entries comes from a line: the key is the value of that line
    in lower case (so every key is in lower case) and the entry is its
    numeric equivalent, which matches the pattern. *)
Theorem convert_entries_sound (data : list (list (string * option string)))
    (out : list (string * string)) (k v : string) :
  convert data = Ok out →
  dict_get k out = Some v →
  regex_match v = true ∧ lower k = k ∧
  ∃ line value, line ∈ data ∧
    dict_get "value" line = Some (Some value) ∧ lower value = k ∧
    dict_get "numeric equivalent" line = Some (Some v).
Proof.
  intros Hrun Hk.
  destruct (convert_from_entries data [] out Hrun k v Hk)
    as [?|(Hm & line & value & Hl & Hv & Hlow & Hn)]; [done|].
  split; [done|]. split; [by rewrite <- Hlow, lower_idemp|].
  by exists line, value.
Qed.

Lemma convert_entries_sound_witness :
  regex_match "30 mph" = true ∧ lower "urban" = "urban" ∧
  ∃ line value,
    line ∈ [ mk_line "Urban" "50"; mk_line "walk" "none";
             mk_line "URBAN" "30 mph" ] ∧
    dict_get "value" line = Some (Some value) ∧ lower value = "urban" ∧
    dict_get "numeric equivalent" line = Some (Some "30 mph").
Proof.
  apply (convert_entries_sound
    [ mk_line "Urban" "50"; mk_line "walk" "none"; mk_line "URBAN" "30 mph" ]
    [("urban", "30 mph")] "urban" "30 mph"); reflexivity.
Defined.

(** ** Lines that lack a field *)

Lemma convert_from_app (pre data : list (list (string * option string))) :
  ∀ output,
    convert_from output (pre ++ data) =
    match convert_from output pre with
    | Ok out => convert_from out data
    | Exc e => Exc e
    end.
Proof.
  induction pre as [|l pre IH]; intros output; simpl; [done|].
  destruct (convert_line output l); [apply IH | done].
Qed.

(** X19: after lines that have the two columns, a line whose numeric
    equivalent is missing (a line shorter than the header) ends the
    conversion with TypeError; a line whose value is missing ends it with
    AttributeError when its numeric equivalent matches the pattern, and is
    passed over like any other line when it does not. *)
Theorem malformed_line_aborts
    (pre rest : list (list (string * option string)))
    (rows : list (string * string)) (line : list (string * option string)) :
  Forall2 (λ l row,
    dict_get "value" l = Some (Some row.1) ∧
    dict_get "numeric equivalent" l = Some (Some row.2)) pre rows →
  (dict_get "numeric equivalent" line = Some None →
   convert (pre ++ line :: rest) = Exc TypeError) ∧
  (∀ ne, dict_get "numeric equivalent" line = Some (Some ne) →
         dict_get "value" line = Some None →
         convert (pre ++ line :: rest) =
         if regex_match ne then Exc AttributeError else convert (pre ++ rest)).
Proof.
  intros Hpre. unfold convert.
  destruct (convert_from_last_wins pre rows Hpre []) as (out & Hrun & _).
  rewrite !convert_from_app, Hrun. simpl. unfold convert_line. split.
  - by intros ->.
  - intros ne -> ->. by destruct (regex_match ne).
Qed.

Lemma malformed_line_aborts_witness :
  (dict_get "numeric equivalent" [("value", Some "rural"); ("numeric equivalent", None)] =
     Some None →
   convert ([mk_line "Urban" "50"] ++
            [("value", Some "rural"); ("numeric equivalent", None)] ::
            [mk_line "walk" "6"]) = Exc TypeError) ∧
  (∀ ne, dict_get "numeric equivalent"
           [("value", Some "rural"); ("numeric equivalent", None)] =
         Some (Some ne) →
         dict_get "value" [("value", Some "rural"); ("numeric equivalent", None)] =
         Some None →
         convert ([mk_line "Urban" "50"] ++
                  [("value", Some "rural"); ("numeric equivalent", None)] ::
                  [mk_line "walk" "6"]) =
         if regex_match ne then Exc AttributeError
         else convert ([mk_line "Urban" "50"] ++ [mk_line "walk" "6"])).
Proof.
  apply (malformed_line_aborts [mk_line "Urban" "50"] [mk_line "walk" "6"]
           [("Urban", "50")]
           [("value", Some "rural"); ("numeric equivalent", None)]).
  repeat constructor.
Defined.
